(** * Webhooks for Tella: the extraction and normalisation pipeline

    A shallow embedding of the data-normalisation code of the browser
    extension ([content.js], class [TellaDataExtractor], and
    [sidebar-webhook.js], class [TellaSidebarWebhook]) and the properties
    of it that the design document states.

    The JavaScript values the code handles are modelled with an explicit
    object store: objects and arrays live in a heap and are reached through
    references, because the pruning step [cleanObject] mutates the record in
    place and the record shares objects with the payloads it was built
    from.  Exceptions are results of type [result]; the finite call stack
    is an explicit bound on nested calls. *)

From Stdlib Require Import ZArith QArith Qround Ascii String DecimalString
  DecimalPos Lia.
From stdpp Require Import base option list strings relations.

Close Scope Q_scope.
Open Scope string_scope.
Open Scope list_scope.

(** ** Numbers

    A JavaScript number is modelled as an exact rational, or one of the
    three special values.  The rounding of IEEE doubles is not modelled:
    a number read from a JSON payload is the rational its literal
    denotes. *)

Inductive num : Type :=
| Fin (q : Q)
| PosInf
| NegInf
| NaN.

Module Num.

Definition of_Z (z : Z) : num := Fin (inject_Z z).

Definition isNaN (n : num) : bool :=
  match n with NaN => true | _ => false end.

(** [ToBoolean]: zero and NaN are falsy. *)
Definition truthy (n : num) : bool :=
  match n with
  | Fin q => negb (Qnum q =? 0)%Z
  | NaN => false
  | PosInf | NegInf => true
  end.

(** [n <= c] and [n > c] against a finite constant; every comparison
    with NaN is false. *)
Definition le (n : num) (c : Q) : bool :=
  match n with
  | Fin q => Qle_bool q c
  | NegInf => true
  | PosInf | NaN => false
  end.

Definition gt (n : num) (c : Q) : bool :=
  match n with
  | Fin q => negb (Qle_bool q c)
  | PosInf => true
  | NegInf | NaN => false
  end.

(** [n / c] for a positive constant [c]. *)
Definition div (n : num) (c : positive) : num :=
  match n with
  | Fin q => Fin (q / inject_Z (Zpos c))
  | other => other
  end.

(** [Math.floor]. *)
Definition floor (n : num) : num :=
  match n with
  | Fin q => of_Z (Qfloor q)
  | other => other
  end.

(** Rounding towards zero, as the remainder operator needs it. *)
Definition Qtrunc (q : Q) : Z :=
  if (Qnum q <? 0)%Z then Qceiling q else Qfloor q.

(** [n % c] for a positive constant [c]: the result has the sign of the
    dividend; the remainder of an infinity is NaN. *)
Definition rem (n : num) (c : positive) : num :=
  match n with
  | Fin q =>
      Fin (Qred (q - inject_Z (Zpos c * Qtrunc (q / inject_Z (Zpos c)))))
  | PosInf | NegInf | NaN => NaN
  end.

Definition Z_to_string (z : Z) : string :=
  NilZero.string_of_int (Z.to_int z).

Definition digit_char (d : Z) : ascii :=
  ascii_of_nat (48 + Z.to_nat d).

(** Decimal digits of the fraction [r / d], [0 <= r < d], at most
    [fuel] of them. *)
Fixpoint frac_digits (fuel : nat) (r d : Z) : string :=
  match fuel with
  | O => ""
  | S fuel' =>
      if (r =? 0)%Z then ""
      else String (digit_char ((r * 10) / d))
                  (frac_digits fuel' ((r * 10) mod d) d)
  end.

(** [Number.prototype.toString]: exact for integers; a fraction is
    printed by its decimal expansion, cut after twenty digits
    (JavaScript prints the shortest digits that read back as the same
    double, and switches to exponent notation for very large or very
    small magnitudes, neither of which is modelled). *)
Definition toString (n : num) : string :=
  match n with
  | NaN => "NaN"
  | PosInf => "Infinity"
  | NegInf => "-Infinity"
  | Fin q =>
      let q' := Qred q in
      let d := Zpos (Qden q') in
      let a := Z.abs (Qnum q') in
      if (d =? 1)%Z then Z_to_string (Qnum q')
      else ((if (Qnum q' <? 0)%Z then "-" else "")
              ++ Z_to_string (a / d) ++ "."
              ++ frac_digits 20 (a mod d) d)
  end.

(** [a + b] and [a - b]. *)
Definition add (a b : num) : num :=
  match a, b with
  | NaN, _ | _, NaN => NaN
  | PosInf, NegInf | NegInf, PosInf => NaN
  | PosInf, _ | _, PosInf => PosInf
  | NegInf, _ | _, NegInf => NegInf
  | Fin p, Fin q => Fin (p + q)
  end.



(** [n * c] for a positive constant [c]. *)
Definition mul (n : num) (c : positive) : num :=
  match n with
  | Fin q => Fin (q * inject_Z (Zpos c))
  | other => other
  end.


End Num.

(** ** Strings

    A string is a sequence of code units; only code units below 256 are
    representable. *)

Module Str.

(** White space and line terminators among the representable code
    units: TAB, LF, VT, FF, CR, SP and NBSP. *)
Definition is_ws (c : ascii) : bool :=
  let n := nat_of_ascii c in
  (n =? 9)%nat || (n =? 10)%nat || (n =? 11)%nat || (n =? 12)%nat
  || (n =? 13)%nat || (n =? 32)%nat || (n =? 160)%nat.

Definition is_empty (s : string) : bool :=
  match s with EmptyString => true | String _ _ => false end.

Fixpoint trim_start (s : string) : string :=
  match s with
  | EmptyString => EmptyString
  | String c s' => if is_ws c then trim_start s' else s
  end.

Fixpoint trim_end (s : string) : string :=
  match s with
  | EmptyString => EmptyString
  | String c s' =>
      let t := trim_end s' in
      if is_ws c && is_empty t then EmptyString else String c t
  end.

(** [String.prototype.trim]. *)
Definition trim (s : string) : string := trim_end (trim_start s).

Fixpoint repeat_char (c : ascii) (n : nat) : string :=
  match n with O => EmptyString | S n' => String c (repeat_char c n') end.

(** [s.padStart(n, c)] for a one-character filler. *)
Definition padStart (n : nat) (c : ascii) (s : string) : string :=
  repeat_char c (n - String.length s) ++ s.

(** [Array.prototype.join] on strings. *)
Definition join (sep : string) (l : list string) : string :=
  String.concat sep l.

Definition is_digit (c : ascii) : bool :=
  let n := nat_of_ascii c in (48 <=? n)%nat && (n <=? 57)%nat.

Definition is_alnum (c : ascii) : bool :=
  let n := nat_of_ascii c in
  ((48 <=? n)%nat && (n <=? 57)%nat)
  || ((65 <=? n)%nat && (n <=? 90)%nat)
  || ((97 <=? n)%nat && (n <=? 122)%nat).

(** [strip p s] removes the literal prefix [p] from [s]. *)
Fixpoint strip (p s : string) : option string :=
  match p with
  | EmptyString => Some s
  | String a p' =>
      match s with
      | EmptyString => None
      | String b s' => if Ascii.eqb a b then strip p' s' else None
      end
  end.

(** The longest prefix of [s] made of digits, as a number with its
    digit count, and the rest of [s]. *)
Fixpoint digits (acc : Z) (len : nat) (s : string) : Z * nat * string :=
  match s with
  | String c s' =>
      if is_digit c
      then digits (acc * 10 + Z.of_nat (nat_of_ascii c - 48)) (S len) s'
      else (acc, len, s)
  | EmptyString => (acc, len, s)
  end.

(** An optional sign. *)
Definition sign (s : string) : bool * string :=
  match s with
  | String "-" s' => (true, s')
  | String "+" s' => (false, s')
  | _ => (false, s)
  end.

(** An optional exponent part [e[+-]digits]; 0 when there is none. *)
Definition exponent (s : string) : Z :=
  match s with
  | String c s' =>
      if Ascii.eqb c "e" || Ascii.eqb c "E" then
        let '(neg, s'') := sign s' in
        let '(e, len, _) := digits 0 0 s'' in
        match len with
        | O => 0%Z
        | S _ => if neg then (- e)%Z else e
        end
      else 0%Z
  | EmptyString => 0%Z
  end.

(** [m * 10^k] as a rational. *)
Definition scale10 (m k : Z) : Q :=
  match k with
  | Zneg p => Qmake m (Pos.pow 10 p)
  | _ => inject_Z (m * 10 ^ k)
  end.

(** The global [parseFloat]: leading white space is skipped and the
    longest prefix that is a decimal literal is read; NaN when there
    is none. *)
Definition parseFloat (s : string) : num :=
  let '(neg, s1) := sign (trim_start s) in
  match strip "Infinity" s1 with
  | Some _ => if neg then NegInf else PosInf
  | None =>
      let '(ip, ilen, s2) := digits 0 0 s1 in
      let '(m, flen, s3) :=
        match s2 with
        | String "." s2' =>
            let '(m, len, s3) := digits ip ilen s2' in
            (m, (len - ilen)%nat, s3)
        | _ => (ip, O, s2)
        end in
      match (ilen + flen)%nat with
      | O => NaN
      | S _ =>
          let k := (exponent s3 - Z.of_nat flen)%Z in
          Fin (scale10 (if neg then - m else m)%Z k)
      end
  end.

(** [parseInt(s, 10)]: leading white space is skipped, then an
    optional sign and the longest run of decimal digits are read; NaN
    when there is no digit. *)
Definition parseInt (s : string) : num :=
  let '(neg, s1) := sign (trim_start s) in
  let '(n, len, _) := digits 0 0 s1 in
  match len with
  | O => NaN
  | S _ => Fin (inject_Z (if neg then - n else n))
  end.

(** [s.split(sep)] for a one-character separator: the pieces between
    the separators, one more than there are separators. *)
Fixpoint split (sep : ascii) (s : string) : list string :=
  match s with
  | EmptyString => [EmptyString]
  | String c s' =>
      if Ascii.eqb c sep then EmptyString :: split sep s'
      else
        match split sep s' with
        | piece :: pieces => String c piece :: pieces
        | [] => [String c EmptyString]
        end
  end.

(** [s.includes(t)]. *)
Fixpoint includes (t s : string) : bool :=
  match strip t s with
  | Some _ => true
  | None =>
      match s with
      | EmptyString => false
      | String _ s' => includes t s'
      end
  end.

(** The value of a digit in bases up to sixteen. *)
Definition digit_value (c : ascii) : option Z :=
  let n := nat_of_ascii c in
  if (48 <=? n)%nat && (n <=? 57)%nat then Some (Z.of_nat (n - 48))
  else if (97 <=? n)%nat && (n <=? 102)%nat then Some (Z.of_nat (n - 87))
  else if (65 <=? n)%nat && (n <=? 70)%nat then Some (Z.of_nat (n - 55))
  else None.

(** The number that all of [s] denotes in base [radix]; none when [s]
    has a character that is not a digit of the base. *)
Fixpoint radix_value (radix acc : Z) (s : string) : option Z :=
  match s with
  | EmptyString => Some acc
  | String c s' =>
      match digit_value c with
      | Some d =>
          if (d <? radix)%Z then radix_value radix (acc * radix + d) s'
          else None
      | None => None
      end
  end.

(** A binary, octal or hexadecimal integer literal, [0b...], [0o...]
    or [0x...]. *)
Definition non_decimal (s : string) : option Z :=
  match s with
  | String "0" (String p (String c rest)) =>
      let digits := String c rest in
      if Ascii.eqb p "b" || Ascii.eqb p "B" then radix_value 2 0 digits
      else if Ascii.eqb p "o" || Ascii.eqb p "O" then radix_value 8 0 digits
      else if Ascii.eqb p "x" || Ascii.eqb p "X" then radix_value 16 0 digits
      else None
  | _ => None
  end.

(** An optional exponent part and what follows it; none when an [e] is
    not followed by digits. *)
Definition exponent_rest (s : string) : option (Z * string) :=
  match s with
  | String c s' =>
      if Ascii.eqb c "e" || Ascii.eqb c "E" then
        let '(neg, s'') := sign s' in
        let '(e, len, rest) := digits 0 0 s'' in
        match len with
        | O => None
        | S _ => Some (if neg then (- e)%Z else e, rest)
        end
      else Some (0%Z, s)
  | EmptyString => Some (0%Z, s)
  end.

(** The conversion of a string to a number: white space around it is
    dropped; the empty string is 0; otherwise all of it has to be a
    numeric literal, or the result is NaN. *)
Definition toNumber (s : string) : num :=
  let t := trim s in
  if is_empty t then Fin 0
  else
    match non_decimal t with
    | Some z => Fin (inject_Z z)
    | None =>
        let '(neg, s1) := sign t in
        match strip "Infinity" s1 with
        | Some EmptyString => if neg then NegInf else PosInf
        | Some _ => NaN
        | None =>
            let '(ip, ilen, s2) := digits 0 0 s1 in
            let '(m, flen, s3) :=
              match s2 with
              | String "." s2' =>
                  let '(m, len, s3) := digits ip ilen s2' in
                  (m, (len - ilen)%nat, s3)
              | _ => (ip, O, s2)
              end in
            match (ilen + flen)%nat with
            | O => NaN
            | S _ =>
                match exponent_rest s3 with
                | Some (e, EmptyString) =>
                    Fin (scale10 (if neg then - m else m)%Z
                           (e - Z.of_nat flen)%Z)
                | _ => NaN
                end
            end
        end
    end.

End Str.

(** ** Values and the object store *)

Abbreviation loc := nat.

Inductive val : Type :=
| VUndef
| VNull
| VBool (b : bool)
| VNum (n : num)
| VStr (s : string)
| VRef (l : loc).

(** A heap cell is a plain object, with its own properties in insertion
    order (the order in which they are enumerated, for keys that are not
    array indices), or an array. *)
Inductive hobj : Type :=
| Obj (props : list (string * val))
| Arr (elems : list val).

Abbreviation heap := (list hobj).

Inductive exn : Type :=
| TypeError
| RangeError.

Inductive result (A : Type) : Type :=
| Ok (a : A)
| Throw (e : exn).
Arguments Ok {A} a.
Arguments Throw {A} e.

(** The monad of code that allocates and may throw. *)
Definition M (A : Type) : Type := heap -> result (A * heap).

Definition ret {A} (a : A) : M A := fun h => Ok (a, h).

Definition bind {A B} (c : M A) (k : A -> M B) : M B :=
  fun h =>
    match c h with
    | Ok (a, h') => k a h'
    | Throw e => Throw e
    end.

Definition lift {A} (r : result A) : M A :=
  fun h => match r with Ok a => Ok (a, h) | Throw e => Throw e end.

Definition reading {A} (f : heap -> A) : M A := fun h => Ok (f h, h).

(** A fresh cell; the new reference is the next free location. *)
Definition alloc (o : hobj) : M val :=
  fun h => Ok (VRef (length h), h ++ [o]).

Notation "'let*' x ':=' c 'in' k" := (bind c (fun x => k))
  (at level 10, x name, c at level 100, k at level 200).

Fixpoint mapM {A B} (f : A -> M B) (l : list A) : M (list B) :=
  match l with
  | [] => ret []
  | a :: l' =>
      let* b := f a in
      let* bs := mapM f l' in
      ret (b :: bs)
  end.


Module Js.

(** [ToBoolean]. *)
Definition truthy (v : val) : bool :=
  match v with
  | VUndef | VNull => false
  | VBool b => b
  | VNum n => Num.truthy n
  | VStr s => negb (Str.is_empty s)
  | VRef _ => true
  end.

(** [a || b]. *)
Definition or (a b : val) : val := if truthy a then a else b.

Definition typeof (v : val) : string :=
  match v with
  | VUndef => "undefined"
  | VNull => "object"
  | VBool _ => "boolean"
  | VNum _ => "number"
  | VStr _ => "string"
  | VRef _ => "object"
  end.

Fixpoint lookup_prop (k : string) (props : list (string * val)) : option val :=
  match props with
  | [] => None
  | (k', v) :: props' => if String.eqb k' k then Some v else lookup_prop k props'
  end.

Definition delete_prop (k : string) (props : list (string * val))
  : list (string * val) :=
  List.filter (fun p => negb (String.eqb (fst p) k)) props.

(** Assignment to a property keeps the position of an existing key and
    appends a new one. *)
Fixpoint set_prop (k : string) (v : val) (props : list (string * val))
  : list (string * val) :=
  match props with
  | [] => [(k, v)]
  | (k', v') :: props' =>
      if String.eqb k' k then (k, v) :: props'
      else (k', v') :: set_prop k v props'
  end.

Definition isArray (h : heap) (v : val) : bool :=
  match v with
  | VRef l => match h !! l with Some (Arr _) => true | _ => false end
  | _ => false
  end.

(** The elements of an array value ([[]] for anything else). *)
Definition elems (h : heap) (v : val) : list val :=
  match v with
  | VRef l => match h !! l with Some (Arr es) => es | _ => [] end
  | _ => []
  end.

(** The own properties of a plain object ([[]] for anything else). *)
Definition props (h : heap) (v : val) : list (string * val) :=
  match v with
  | VRef l => match h !! l with Some (Obj ps) => ps | _ => [] end
  | _ => []
  end.

(** [v.k] for one of the property names the extension reads.  None of
    them is a member of a prototype, so on a string, a number, a
    boolean or an array the access gives [undefined]; on [null] and
    [undefined] it throws. *)
Definition get (h : heap) (v : val) (k : string) : result val :=
  match v with
  | VUndef | VNull => Throw TypeError
  | VRef _ => Ok (default VUndef (lookup_prop k (props h v)))
  | VBool _ | VNum _ | VStr _ => Ok VUndef
  end.

(** [v?.k]. *)
Definition get_opt (h : heap) (v : val) (k : string) : val :=
  match get h v k with Ok x => x | Throw _ => VUndef end.

(** [a[i]] on an array. *)
Definition index (h : heap) (v : val) (i : nat) : val :=
  default VUndef (elems h v !! i).

(** The own enumerable string-keyed properties, as object spread copies
    them: those of a plain object, the indices of an array, the
    characters of a string. *)
Fixpoint indexed {A} (f : A -> val) (i : nat) (l : list A) : list (string * val) :=
  match l with
  | [] => []
  | a :: l' => (Num.Z_to_string (Z.of_nat i), f a) :: indexed f (S i) l'
  end.

Definition spread (h : heap) (v : val) : list (string * val) :=
  match v with
  | VRef l =>
      match h !! l with
      | Some (Obj ps) => ps
      | Some (Arr es) => indexed (fun e => e) 0 es
      | None => []
      end
  | VStr s =>
      indexed (fun c => VStr (String c EmptyString)) 0 (list_ascii_of_string s)
  | _ => []
  end.

(** [ToString], as a template literal applies it.  An array prints
    its elements separated by commas, with [null] and [undefined]
    printed as nothing; [stack] bounds the nesting. *)
Fixpoint toString (stack : nat) (h : heap) (v : val) : result string :=
  match v with
  | VUndef => Ok "undefined"
  | VNull => Ok "null"
  | VBool true => Ok "true"
  | VBool false => Ok "false"
  | VNum n => Ok (Num.toString n)
  | VStr s => Ok s
  | VRef l =>
      match h !! l with
      | Some (Arr es) =>
          match stack with
          | O => Throw RangeError
          | S stack' =>
              let item (e : val) : result string :=
                match e with
                | VUndef | VNull => Ok ""
                | _ => toString stack' h e
                end in
              let fix go (es : list val) : result (list string) :=
                match es with
                | [] => Ok []
                | e :: es' =>
                    match item e with
                    | Throw x => Throw x
                    | Ok s =>
                        match go es' with
                        | Throw x => Throw x
                        | Ok ss => Ok (s :: ss)
                        end
                    end
                end in
              match go es with
              | Ok ss => Ok (Str.join "," ss)
              | Throw x => Throw x
              end
          end
      | _ => Ok "[object Object]"
      end
  end.

(** [obj[k] = v] on a plain object. *)
Definition assign (l : loc) (k : string) (v : val) (h : heap) : heap :=
  match h !! l with
  | Some (Obj ps) => <[l := Obj (set_prop k v ps)]> h
  | _ => h
  end.

(** The elements of an array as [join] prints them: [null] and
    [undefined] as nothing. *)
Fixpoint printed (stack : nat) (h : heap) (vs : list val)
  : result (list string) :=
  match vs with
  | [] => Ok []
  | v :: vs' =>
      match (match v with
             | VUndef | VNull => Ok ""
             | _ => toString stack h v
             end),
            printed stack h vs' with
      | Ok s, Ok ss => Ok (s :: ss)
      | Throw x, _ | _, Throw x => Throw x
      end
  end.

(** [Array.prototype.join] with the separator [sep]. *)
Definition join (stack : nat) (h : heap) (sep : string) (vs : list val)
  : result string :=
  match printed stack h vs with
  | Ok ss => Ok (Str.join sep ss)
  | Throw x => Throw x
  end.

(** [ToNumber]; an object or array is first printed. *)
Definition toNumber (stack : nat) (h : heap) (v : val) : result num :=
  match v with
  | VUndef => Ok NaN
  | VNull => Ok (Fin 0)
  | VBool b => Ok (Fin (if b then 1 else 0))
  | VNum n => Ok n
  | VStr s => Ok (Str.toNumber s)
  | VRef _ =>
      match toString stack h v with
      | Ok s => Ok (Str.toNumber s)
      | Throw x => Throw x
      end
  end.

End Js.

(** ** JSON payloads

    What [response.json()] produces: a tree, loaded into the store as
    fresh cells, children before their parent. *)

#[local] Set Warnings "-register-all".

Inductive Json : Type :=
| JNull
| JBool (b : bool)
| JNum (q : Q)
| JStr (s : string)
| JArr (items : list Json)
| JObj (members : list (string * Json)).

(** The members of an object, in order; a repeated key keeps its
    first position and takes the last value. *)
Fixpoint load_members (load : Json -> M val) (members : list (string * Json))
    (acc : list (string * val)) : M (list (string * val)) :=
  match members with
  | [] => ret acc
  | (k, i) :: members' =>
      let* v := load i in
      load_members load members' (Js.set_prop k v acc)
  end.

Fixpoint load (j : Json) : M val :=
  match j with
  | JNull => ret VNull
  | JBool b => ret (VBool b)
  | JNum q => ret (VNum (Fin q))
  | JStr s => ret (VStr s)
  | JArr items =>
      let* vs := mapM load items in
      alloc (Arr vs)
  | JObj members =>
      let* ps := load_members load members [] in
      alloc (Obj ps)
  end.

(** The outcome of [fetch]: the promise rejects (a network error), or it
    resolves to a response whose [ok] flag tells a 2xx status and whose
    body is valid JSON or not. *)
Inductive fetched : Type :=
| Rejected
| Resolved (ok : bool) (body : option Json).

(** ** [content.js]: class [TellaDataExtractor] *)

Module Content.

(** What the extractor reads from its surroundings: [this.storyId],
    [window.location.href], the clock, the extension manifest, and the
    depth of call stack left. *)
Record env : Type := {
  storyId : option string;
  href : string;
  now : string;
  manifestVersion : option string;
  stack : nat
}.

Definition of_option (o : option string) : val :=
  match o with Some s => VStr s | None => VNull end.

(** *** [extractStoryId] *)

(** The four patterns all have the shape
    [/<prefix>([a-zA-Z0-9]+)<suffix>/]. *)
Record pattern : Type := {
  prefix : string;
  suffix : string
}.

Definition patterns : list pattern :=
  [ {| prefix := "/video/"; suffix := "/view" |};
    {| prefix := "/video/"; suffix := "" |};
    {| prefix := "/stories/"; suffix := "" |};
    {| prefix := "/watch/"; suffix := "" |} ].

(** The group [([a-zA-Z0-9]+)] followed by the literal [suf]: the group
    is greedy, and gives characters back one at a time while the rest
    of the pattern fails.  [acc] is the text the group holds so far. *)
Fixpoint group_then (suf : string) (acc s : string) : option string :=
  match s with
  | EmptyString => None
  | String c s' =>
      if Str.is_alnum c then
        let acc' := (acc ++ String c EmptyString)%string in
        match group_then suf acc' s' with
        | Some id => Some id
        | None =>
            match Str.strip suf s' with
            | Some _ => Some acc'
            | None => None
            end
        end
      else None
  end.

(** A match that starts at the first character of [s]. *)
Definition match_here (p : pattern) (s : string) : option string :=
  match Str.strip (prefix p) s with
  | Some rest => group_then (suffix p) "" rest
  | None => None
  end.

(** [url.match(pattern)]: the leftmost match; the result is the text
    of the capture group, [None] when there is no match. *)
Fixpoint regex_match (p : pattern) (s : string) : option string :=
  match match_here p s with
  | Some id => Some id
  | None =>
      match s with
      | EmptyString => None
      | String _ s' => regex_match p s'
      end
  end.

Fixpoint first_match (ps : list pattern) (url : string) : option string :=
  match ps with
  | [] => None
  | p :: ps' =>
      match regex_match p url with
      | Some id => Some id
      | None => first_match ps' url
      end
  end.

Definition extractStoryId (url : string) : option string :=
  first_match patterns url.

(** *** [formatDuration] *)

(** What the function does with the number [value] it has settled on:
    the lines from [if (!value || value <= 0)] to the final [return]. *)
Definition normalize (value : num) : val :=
  if negb (Num.truthy value) || Num.le value 0 then VNull
  else if Num.gt value (inject_Z 10000)
       then VNum (Num.floor (Num.div value 1000))
       else VNum (Num.floor value).

(** [stack] counts the calls that are still possible.  A call that
    finds no stack left throws; when that happens to the nested call,
    it happens inside the caller's [try], and the caller's [catch]
    returns [null]. *)
Fixpoint formatDuration (stack : nat) (h : heap) (input : val) : result val :=
  match stack with
  | O => Throw RangeError
  | S stack' =>
      let nested : val :=
        if Js.truthy input && Js.truthy (Js.get_opt h input "duration")
        then match formatDuration stack' h (Js.get_opt h input "duration") with
             | Ok v => v
             | Throw _ => VNull
             end
        else VNull in
      match input with
      | VNum n => Ok (if Num.isNaN n then nested else normalize n)
      | VStr s =>
          Ok (if Num.isNaN (Str.parseFloat s) then nested
              else normalize (Str.parseFloat s))
      | _ => Ok nested
      end
  end.

(** *** [formatTimestamp] *)

Definition formatTimestamp (seconds : val) : string :=
  match seconds with
  | VNum n =>
      let minutes := Num.floor (Num.div n 60) in
      let remainingSeconds := Num.rem n 60 in
      Num.toString minutes ++ ":"
        ++ Str.padStart 2 "0" (Num.toString remainingSeconds)
  | _ => "0:00"
  end.

(** *** [formatTranscriptFromWords] *)

(** The callback of the first [filter]: [!word.hidden && word.text]. *)
Definition visible (h : heap) (word : val) : result bool :=
  match Js.get h word "hidden", Js.get h word "text" with
  | Ok hidden, Ok text => Ok (negb (Js.truthy hidden) && Js.truthy text)
  | Throw e, _ | _, Throw e => Throw e
  end.

(** The callback of [map]: [word.text.trim()], which throws when the
    text is not a string. *)
Definition trimmed (h : heap) (word : val) : result string :=
  match Js.get h word "text" with
  | Ok (VStr s) => Ok (Str.trim s)
  | Ok _ => Throw TypeError
  | Throw e => Throw e
  end.

Fixpoint filterR {A} (f : A -> result bool) (l : list A) : result (list A) :=
  match l with
  | [] => Ok []
  | a :: l' =>
      match f a with
      | Throw e => Throw e
      | Ok b =>
          match filterR f l' with
          | Throw e => Throw e
          | Ok r => Ok (if b then a :: r else r)
          end
      end
  end.

Fixpoint mapR {A B} (f : A -> result B) (l : list A) : result (list B) :=
  match l with
  | [] => Ok []
  | a :: l' =>
      match f a with
      | Throw e => Throw e
      | Ok b =>
          match mapR f l' with
          | Throw e => Throw e
          | Ok r => Ok (b :: r)
          end
      end
  end.

Definition formatTranscriptFromWords (h : heap) (words : val) : result string :=
  if negb (Js.truthy words) || negb (Js.isArray h words) then Ok ""
  else
    match filterR (visible h) (Js.elems h words) with
    | Throw e => Throw e
    | Ok kept =>
        match mapR (trimmed h) kept with
        | Throw e => Throw e
        | Ok texts =>
            Ok (Str.join " "
                  (List.filter (fun t => negb (Str.is_empty t)) texts))
        end
    end.

(** *** [calculateTranscriptDuration]

    Its one caller passes an array; on an array, [words.length] is the
    number of elements. *)
Definition calculateTranscriptDuration (h : heap) (words : val) : result val :=
  let es := Js.elems h words in
  if negb (Js.truthy words) || (length es =? 0)%nat then Ok (VNum (Num.of_Z 0))
  else
    match Js.get h (Js.index h words (length es - 1)) "end_" with
    | Ok e => Ok (Js.or e (VNum (Num.of_Z 0)))
    | Throw e => Throw e
    end.

(** *** [parseTranscriptionData] *)

(** The word-level array: the flat location first, then
    [transcriptions[1][0].words]; [null] when neither applies. *)
Definition resolve_words (h : heap) (transcriptionData : val) : result val :=
  let words := Js.get_opt h transcriptionData "words" in
  let transcriptions := Js.get_opt h transcriptionData "transcriptions" in
  if Js.truthy words && Js.isArray h words then Ok words
  else if Js.truthy transcriptions && Js.isArray h transcriptions
          && (1 <? length (Js.elems h transcriptions))%nat
  then
    let transcriptionDetails := Js.index h transcriptions 1 in
    if Js.isArray h transcriptionDetails
       && (0 <? length (Js.elems h transcriptionDetails))%nat
    then Js.get h (Js.index h transcriptionDetails 0) "words"
    else Ok VNull
  else Ok VNull.

(** The properties set under [if (transcriptionData.transcriptions)]. *)
Definition transcription_metadata (transcriptionData : val)
  : M (list (string * val)) :=
  let* transcriptions :=
    reading (fun h => Js.get_opt h transcriptionData "transcriptions") in
  if Js.truthy transcriptions then
    let* isArr := reading (fun h => Js.isArray h transcriptions) in
    let* es := reading (fun h => Js.elems h transcriptions) in
    if isArr && (1 <? length es)%nat then
      let status := Js.or (default VUndef (es !! 0%nat)) (VStr "Unknown") in
      let* details :=
        if Js.truthy (default VUndef (es !! 1%nat))
        then ret (default VUndef (es !! 1%nat))
        else alloc (Arr []) in
      ret [("transcriptionMetadata", transcriptions);
           ("transcriptionStatus", status);
           ("transcriptionDetails", details)]
    else ret [("transcriptionMetadata", transcriptions)]
  else ret [].

(** The result object is allocated once all its properties are known:
    nothing reads it before it is returned, so this is the same object
    as the one the source fills in step by step. *)
Definition parseTranscriptionData (transcriptionData : val) : M val :=
  if negb (Js.truthy transcriptionData) then alloc (Obj [])
  else
    let* metadata := transcription_metadata transcriptionData in
    let* words := fun h => lift (resolve_words h transcriptionData) h in
    let* isArr := reading (fun h => Js.isArray h words) in
    if Js.truthy words && isArr then
      let* transcript := fun h => lift (formatTranscriptFromWords h words) h in
      let* count := reading (fun h => length (Js.elems h words)) in
      let* duration := fun h => lift (calculateTranscriptDuration h words) h in
      alloc (Obj (metadata ++
                    [("transcriptionWords", words);
                     ("transcript", VStr transcript);
                     ("transcriptWordCount", VNum (Num.of_Z (Z.of_nat count)));
                     ("transcriptDurationMs", duration)]))
    else alloc (Obj metadata).

(** *** [getTranscriptSegmentsByTimestamp] *)





(** *** [parseChapters] *)

Definition parseChapter (chapter : val) : M val :=
  let* id := fun h => lift (Js.get h chapter "id") h in
  let* timestamp := fun h => lift (Js.get h chapter "timestamp") h in
  let* title := fun h => lift (Js.get h chapter "title") h in
  let* description := fun h => lift (Js.get h chapter "description") h in
  alloc (Obj [("id", Js.or id VNull);
              ("timestamp", Js.or timestamp (VNum (Num.of_Z 0)));
              ("timestampFormatted",
                VStr (formatTimestamp (Js.or timestamp (VNum (Num.of_Z 0)))));
              ("title", Js.or title (VStr ""));
              ("description", Js.or description (VStr ""))]).

Definition parseChapters (chapters : val) : M val :=
  let* isArr := reading (fun h => Js.isArray h chapters) in
  let* es := reading (fun h => Js.elems h chapters) in
  if negb (Js.truthy chapters) || negb isArr || (length es =? 0)%nat
  then alloc (Arr [])
  else
    let* parsed := mapM parseChapter es in
    alloc (Arr parsed).

(** *** [cleanObject] *)

(** [delete obj[key]]. *)
Definition delete_key (obj : loc) (key : string) (h : heap) : heap :=
  match h !! obj with
  | Some (Obj ps) => <[obj := Obj (Js.delete_prop key ps)]> h
  | _ => h
  end.

(** The callback of [forEach], with [rec] the recursive call. *)
Definition clean_key (rec : loc -> heap -> result heap)
    (obj : loc) (key : string) (h : heap) : result heap :=
  match default VUndef (Js.lookup_prop key (Js.props h (VRef obj))) with
  | VNull | VUndef => Ok (delete_key obj key h)
  | VRef c =>
      match h !! c with
      | Some (Obj _) =>
          match rec c h with
          | Ok h' =>
              match Js.props h' (VRef c) with
              | [] => Ok (delete_key obj key h')
              | _ :: _ => Ok h'
              end
          | Throw e => Throw e
          end
      | _ => Ok h
      end
  | _ => Ok h
  end.

Fixpoint clean_keys (rec : loc -> heap -> result heap)
    (obj : loc) (keys : list string) (h : heap) : result heap :=
  match keys with
  | [] => Ok h
  | key :: keys' =>
      match clean_key rec obj key h with
      | Ok h' => clean_keys rec obj keys' h'
      | Throw e => Throw e
      end
  end.

(** [cleanObject(obj)] for a plain object [obj], which is what the
    function is applied to at its call in [parseDocumentData] and at
    its recursive call.  The keys are those the object has when the
    loop starts; each value is read when its key is reached. *)
Fixpoint cleanObject (stack : nat) (obj : loc) (h : heap) : result heap :=
  match stack with
  | O => Throw RangeError
  | S stack' =>
      clean_keys (cleanObject stack') obj (Js.props h (VRef obj)).*1 h
  end.

(** *** [parseDocumentData] *)

Definition parseDocumentData (e : env) (data transcriptionData : val) : M val :=
  let* transcriptionInfo := parseTranscriptionData transcriptionData in
  let* story0 := fun h => lift (Js.get h data "story") h in
  let story := Js.or story0 data in
  let field (k : string) : M val := reading (fun h => Js.get_opt h story k) in
  let* id := field "id" in
  let* name := field "name" in
  let* description := field "description" in
  let* url := field "url" in
  let* dimensions := field "dimensions" in
  let* views := field "views" in
  let* slug := field "slug" in
  let* channelIDs := field "channelIDs" in
  let* video :=
    alloc (Obj [("id", Js.or id (of_option (storyId e)));
                ("title", Js.or name VNull);
                ("description", Js.or description (VStr ""));
                ("url", Js.or url (VStr (href e)));
                ("dimensions", Js.or dimensions VNull);
                ("views", Js.or views (VNum (Num.of_Z 0)));
                ("slug", Js.or slug VNull);
                ("channelIDs", Js.or channelIDs VNull)]) in
  let* duration := field "duration" in
  let* formatted := fun h => lift (formatDuration (stack e) h duration) h in
  let* createdAt := field "createdAt" in
  let* updatedAt := field "updatedAt" in
  let* lastSeen := field "lastSeen" in
  let* timing :=
    alloc (Obj [("duration", formatted);
                ("durationMs", Js.or duration VNull);
                ("createdAt", Js.or createdAt VNull);
                ("updatedAt", Js.or updatedAt VNull);
                ("lastSeen", Js.or lastSeen VNull)]) in
  let* rawChapters := field "chapters" in
  let* chapters := parseChapters rawChapters in
  let* content :=
    alloc (Obj [("chapters", chapters);
                ("transcription", transcriptionInfo)]) in
  let* metadata :=
    alloc (Obj [("extractedAt", VStr (now e));
                ("pageUrl", VStr (href e));
                ("extractionMethod", VStr "api");
                ("extensionVersion",
                  Js.or (of_option (manifestVersion e)) (VStr "unknown"))]) in
  let* extractedData :=
    alloc (Obj [("video", video);
                ("timing", timing);
                ("content", content);
                ("metadata", metadata)]) in
  match extractedData with
  | VRef l =>
      fun h =>
        match cleanObject (stack e) l h with
        | Ok h' => Ok (extractedData, h')
        | Throw x => Throw x
        end
  | _ => ret extractedData
  end.

(** *** [convertTimeToSeconds]

    [timeString.split] exists on strings only. *)
Definition convertTimeToSeconds (timeString : val) : result num :=
  match timeString with
  | VStr s =>
      match map Str.parseInt (Str.split ":" s) with
      | [minutes; seconds] => Ok (Num.add (Num.mul minutes 60) seconds)
      | [hours; minutes; seconds] =>
          Ok (Num.add (Num.add (Num.mul hours 3600) (Num.mul minutes 60)) seconds)
      | _ => Ok (Num.of_Z 0)
      end
  | _ => Throw TypeError
  end.

(** *** The two fetches and [extractFromAPI] *)

(** [fetchDocumentData] and [fetchTranscriptionData] have the same
    body: the parsed body of a 2xx response, and [null] for any other
    status, a rejected fetch, or a body that is not JSON. *)
Definition fetchData (f : fetched) (h : heap) : val * heap :=
  match f with
  | Resolved true (Some body) =>
      match load body h with
      | Ok r => r
      | Throw _ => (VNull, h)
      end
  | Resolved true None => (VNull, h)
  | Resolved false _ => (VNull, h)
  | Rejected => (VNull, h)
  end.

Definition fetchDocumentData := fetchData.
Definition fetchTranscriptionData := fetchData.

(** [document] and [transcription] are what the two requests would
    give; the second request is only made once the first gave data. *)
Definition extractFromAPI (e : env) (document transcription : fetched)
    (h : heap) : val * heap :=
  if negb (Js.truthy (of_option (storyId e))) then (VNull, h)
  else
    let '(documentData, h1) := fetchDocumentData document h in
    if Js.truthy documentData then
      let '(transcriptionData, h2) := fetchTranscriptionData transcription h1 in
      match parseDocumentData e documentData transcriptionData h2 with
      | Ok r => r
      | Throw _ => (VNull, h2)
      end
    else (VNull, h1).

(** *** [extractAllData]

    The scrapers of the fallback path read the page; what each of them
    returns, or that it throws, is given ([extractVideoUrl] returns the
    address of the page).  The record of the structured source is a
    plain object; a property cannot be set on a number, a string or a
    boolean in a class body, which is strict code. *)
Record dom : Type := {
  extractTitle : result val;
  extractTranscript : result val;
  extractChapters : result val;
  extractCreatedDate : result val;
  extractPlaylist : result val;
  extractDuration : result val;
  extractViews : result val;
  extractDescription : result val
}.

(** The loop that removes the [null] and [undefined] fields of the
    fallback record. *)
Definition remove_null (obj : loc) (key : string) (h : heap) : heap :=
  match default VUndef (Js.lookup_prop key (Js.props h (VRef obj))) with
  | VNull | VUndef => delete_key obj key h
  | _ => h
  end.

Definition extractAllData (e : env) (document transcription : fetched)
    (page : dom) : M val :=
  fun h =>
    let '(apiData, h1) := extractFromAPI e document transcription h in
    if Js.truthy apiData then
      match Js.get h1 apiData "transcript" with
      | Ok held =>
          if negb (Js.truthy held) then
            match extractTranscript page with
            | Ok transcript =>
                if Js.truthy transcript then
                  match apiData with
                  | VRef this_data =>
                      Ok (apiData,
                          Js.assign this_data "extractionMethod" (VStr "api+dom")
                            (Js.assign this_data "transcript" transcript h1))
                  | _ => Throw TypeError
                  end
                else Ok (apiData, h1)
            | Throw x => Throw x
            end
          else Ok (apiData, h1)
      | Throw x => Throw x
      end
    else
      (let* title := lift (extractTitle page) in
       let* transcript := lift (extractTranscript page) in
       let* chapters := lift (extractChapters page) in
       let* createdDate := lift (extractCreatedDate page) in
       let* playlist := lift (extractPlaylist page) in
       let* duration := lift (extractDuration page) in
       let* views := lift (extractViews page) in
       let* description := lift (extractDescription page) in
       let fields :=
         [("title", title);
          ("transcript", transcript);
          ("chapters", chapters);
          ("createdDate", createdDate);
          ("playlist", playlist);
          ("duration", duration);
          ("views", views);
          ("videoUrl", VStr (href e));
          ("description", description);
          ("extractedAt", VStr (now e));
          ("pageUrl", VStr (href e));
          ("extractionMethod", VStr "dom")] in
       let* this_data := alloc (Obj fields) in
       match this_data with
       | VRef l => fun h2 => Ok (this_data, fold_left (fun h3 key => remove_null l key h3) fields.*1 h2)
       | _ => ret this_data
       end) h1.

(** *** [detectRecordingPage], the constructor and [shouldInitialize] *)

(** [url.match(/\/video\/([a-zA-Z0-9]+)$/)]: the leftmost place where
    [/video/] is followed by letters and digits up to the end of the
    URL; the matched text and the group. *)
Fixpoint match_video_end (s : string) : option (string * string) :=
  let here :=
    match Str.strip "/video/" s with
    | Some rest =>
        if negb (Str.is_empty rest)
           && forallb Str.is_alnum (list_ascii_of_string rest)
        then Some (s, rest)
        else None
    | None => None
    end in
  match here with
  | Some m => Some m
  | None =>
      match s with
      | EmptyString => None
      | String _ s' => match_video_end s'
      end
  end.

(** [this_storyId] is [this.storyId] as the method finds it.  A match
    is returned as the array of the matched text and the group. *)
Definition detectRecordingPage (this_storyId : val) (url : string) : M val :=
  let* isVideoPage :=
    if Str.includes "/video/" url then
      if Str.includes "/view" url then ret (VBool true)
      else
        match match_video_end url with
        | Some (whole, id) => alloc (Arr [VStr whole; VStr id])
        | None => ret VNull
        end
    else ret (VBool false) in
  ret (Js.or
         (Js.or
            (Js.or (VBool (Str.includes "/watch/" url))
               (VBool (Str.includes "/recordings/" url)))
            isVideoPage)
         (VBool (negb (match this_storyId with VNull => true | _ => false end)))).

(** The fields of a [TellaDataExtractor]. *)
Record extractor : Type := {
  this_data : val;
  this_isRecordingPage : val;
  this_storyId : val
}.

(** The constructor: [detectRecordingPage] runs before [this.storyId]
    is assigned, and finds it [undefined]. *)
Definition new_TellaDataExtractor (url : string) : M extractor :=
  let* data := alloc (Obj []) in
  let* isRecordingPage := detectRecordingPage VUndef url in
  ret {| this_data := data;
         this_isRecordingPage := isRecordingPage;
         this_storyId := of_option (extractStoryId url) |}.

Definition shouldInitialize (url : string) : bool :=
  Str.includes "/video/" url && Str.includes "/view" url
  || Str.includes "/watch/" url
  || Str.includes "/recordings/" url.

End Content.

(** ** [sidebar-webhook.js]: class [TellaSidebarWebhook] *)

Module Sidebar.

(** The preview formatter; the class repeats the extractor's method. *)
Definition formatTimestamp (seconds : val) : string :=
  match seconds with
  | VNum n =>
      let minutes := Num.floor (Num.div n 60) in
      let remainingSeconds := Num.rem n 60 in
      Num.toString minutes ++ ":"
        ++ Str.padStart 2 "0" (Num.toString remainingSeconds)
  | _ => "0:00"
  end.

Definition formatTimestampWithLeadingZeros (seconds : val) : string :=
  match seconds with
  | VNum n =>
      let hours := Num.floor (Num.div n 3600) in
      let minutes := Num.floor (Num.div (Num.rem n 3600) 60) in
      let remainingSeconds := Num.floor (Num.rem n 60) in
      let pad (x : num) := Str.padStart 2 "0" (Num.toString x) in
      if Num.gt hours 0
      then pad hours ++ ":" ++ pad minutes ++ ":" ++ pad remainingSeconds
      else pad minutes ++ ":" ++ pad remainingSeconds
  | _ => "00:00"
  end.

Definition newline : string := String (ascii_of_nat 10) EmptyString.

(** The callback of [map] in [formatChaptersAsMarkdown]. *)
Definition chapterLine (stack : nat) (h : heap) (chapter : val) : result string :=
  match Js.get h chapter "timestampFormatted" with
  | Throw e => Throw e
  | Ok formatted =>
      let raw := Js.get_opt h chapter "timestamp" in
      let timestamp :=
        if Js.truthy formatted then formatted
        else match raw with
             | VUndef => VStr "00:00"
             | _ => VStr (formatTimestampWithLeadingZeros raw)
             end in
      let title := Js.or (Js.get_opt h chapter "title") (VStr "Untitled") in
      let description := Js.or (Js.get_opt h chapter "description") (VStr "") in
      match Js.toString stack h timestamp,
            Js.toString stack h title,
            Js.toString stack h description with
      | Ok ts, Ok t, Ok d =>
          if Js.truthy description
          then Ok ("- " ++ ts ++ " " ++ t ++ " - " ++ d)%string
          else Ok ("- " ++ ts ++ " " ++ t)%string
      | Throw e, _, _ | _, Throw e, _ | _, _, Throw e => Throw e
      end
  end.

Definition formatChaptersAsMarkdown (stack : nat) (h : heap) (chapters : val)
  : result string :=
  if negb (Js.truthy chapters) || negb (Js.isArray h chapters)
     || (length (Js.elems h chapters) =? 0)%nat
  then Ok ""
  else
    match Content.mapR (chapterLine stack h) (Js.elems h chapters) with
    | Ok lines => Ok (Str.join newline lines)
    | Throw e => Throw e
    end.

(** [_buildEnhancedPayload], with [this.extractedData] as argument. *)
Definition _buildEnhancedPayload (stack : nat) (extractedData : val) : M val :=
  let* content0 := reading (fun h => Js.get_opt h extractedData "content") in
  let* contentData :=
    if Js.truthy content0 then ret content0 else alloc (Obj []) in
  let* chapters0 := reading (fun h => Js.get_opt h contentData "chapters") in
  let* chapters :=
    if Js.truthy chapters0 then ret chapters0 else alloc (Arr []) in
  let* chaptersMd :=
    fun h => lift (formatChaptersAsMarkdown stack h chapters) h in
  let* inner := reading (fun h => Js.spread h contentData) in
  let* content := alloc (Obj (Js.set_prop "chaptersMd" (VStr chaptersMd) inner)) in
  let* outer := reading (fun h => Js.spread h extractedData) in
  alloc (Obj (Js.set_prop "content" content outer)).

(** The fields of a [TellaSidebarWebhook] that the methods below read. *)
Record webhook : Type := {
  webhookUrl : val;
  extractedData : val;
  currentTab : val
}.

(** [getWebhookPayload]; [now] is the clock. *)
Definition getWebhookPayload (stack : nat) (self : webhook) (now : string)
  : M val :=
  if negb (Js.truthy (extractedData self)) then ret VNull
  else
    let* enhancedData := _buildEnhancedPayload stack (extractedData self) in
    alloc (Obj [("event", VStr "tella_data_extracted");
                ("timestamp", VStr now);
                ("source", VStr "tella-extension-sidebar");
                ("data", enhancedData)]).

(** The body of the [try] of [storeSyncHistory]: the history that is
    handed to [chrome.storage.local.set].  [syncHistory] is what the
    store holds under that key. *)
Definition updatedHistory (self : webhook) (now : string) (syncHistory : val)
  : M val :=
  let* history :=
    if Js.truthy syncHistory then ret syncHistory else alloc (Arr []) in
  let* video := fun h => lift (Js.get h (extractedData self) "video") h in
  let* title :=
    reading (fun h =>
      Js.or (Js.or (Js.get_opt h video "title")
               (Js.get_opt h (extractedData self) "title"))
        (VStr "Unknown")) in
  let* url :=
    reading (fun h =>
      Js.or (Js.or (Js.get_opt h video "url")
               (Js.get_opt h (extractedData self) "videoUrl"))
        (Js.get_opt h (currentTab self) "url")) in
  let* entry :=
    alloc (Obj [("timestamp", VStr now);
                ("title", title);
                ("url", url);
                ("webhookUrl", webhookUrl self);
                ("success", VBool true);
                ("source", VStr "sidebar")]) in
  fun h =>
    match history with
    | VRef l =>
        match h !! l with
        | Some (Arr es) =>
            let unshifted := entry :: es in
            let kept :=
              if (20 <? length unshifted)%nat then take 20 unshifted
              else unshifted in
            Ok (history, <[l := Arr kept]> h)
        | _ => Throw TypeError
        end
    | _ => Throw TypeError
    end.

(** [storeSyncHistory]: [stored] is the outcome of reading the store;
    the result is what is written back, nothing when the method gave
    up.  Every error is caught. *)
Definition storeSyncHistory (self : webhook) (now : string)
    (stored : result val) (h : heap) : option val * heap :=
  match stored with
  | Throw _ => (None, h)
  | Ok syncHistory =>
      match updatedHistory self now syncHistory h with
      | Ok (history, h') => (Some history, h')
      | Throw _ => (None, h)
      end
  end.

End Sidebar.


(** ** Vocabulary of the statements *)

(** *** URL shapes *)



(** *** Pruned records *)

Definition nullish (v : val) : bool :=
  match v with VNull | VUndef => true | _ => false end.

Definition is_obj (h : heap) (c : loc) : Prop :=
  exists ps, h !! c = Some (Obj ps).

(** [v] is a reference to a plain object without properties. *)
Definition empty_obj (h : heap) (v : val) : Prop :=
  exists c, v = VRef c /\ h !! c = Some (Obj []).

(** A property value that pruning leaves in place: not [null], not
    [undefined], and when it is a plain object, a non-empty one that
    satisfies [P]. *)
Definition kept (P : loc -> Prop) (h : heap) (v : val) : Prop :=
  nullish v = false
  /\ forall c ps', v = VRef c -> h !! c = Some (Obj ps') -> ps' <> [] /\ P c.

(** The plain object at [l] is pruned down to nesting depth [d]: none of
    its properties is [null] or [undefined], and every property that
    holds a plain object holds a non-empty one that is pruned in turn.
    Nothing is asked of arrays or of what they hold. *)
Fixpoint pruned_upto (d : nat) (h : heap) (l : loc) : Prop :=
  match d with
  | O => False
  | S d' =>
      exists ps,
        h !! l = Some (Obj ps)
        /\ forall k v, Js.lookup_prop k ps = Some v -> kept (pruned_upto d' h) h v
  end.

(** [at_path h v path w]: following the property names [path] from [v],
    through plain objects only, leads to [w]. *)
Inductive at_path (h : heap) : val -> list string -> val -> Prop :=
| at_here (v : val) : at_path h v [] v
| at_prop (l : loc) (ps : list (string * val)) (k : string) (v : val)
    (path : list string) (w : val) :
    h !! l = Some (Obj ps) ->
    Js.lookup_prop k ps = Some v ->
    at_path h v path w ->
    at_path h (VRef l) (k :: path) w.

(** The values [cleanObject] may delete the key of: [null], [undefined]
    and plain objects. *)
Definition prunable (h : heap) (v : val) : Prop :=
  nullish v = true \/ exists c, v = VRef c /\ is_obj h c.

(** [c] is a plain object held by a property of the plain object [x]. *)
Definition obj_edge (h : heap) (x c : loc) : Prop :=
  exists ps k,
    h !! x = Some (Obj ps) /\ Js.lookup_prop k ps = Some (VRef c) /\ is_obj h c.

(** Reachable through properties of plain objects alone. *)
Definition obj_reach (h : heap) : loc -> loc -> Prop := rtc (obj_edge h).

(** A store in allocation order: an object or array only refers to
    cells allocated before it.  [JSON.parse] and the object and array
    literals of the extension build stores of this kind. *)
Definition ordered_objects (h : heap) : Prop :=
  forall l ps k c,
    h !! l = Some (Obj ps) -> Js.lookup_prop k ps = Some (VRef c) -> c < l.

Definition ordered_arrays (h : heap) : Prop :=
  forall l es i c,
    h !! l = Some (Arr es) -> es !! i = Some (VRef c) -> c < l.

Definition ordered (h : heap) : Prop := ordered_objects h /\ ordered_arrays h.

(** The same, as a check that can be run. *)
Definition refs_below (n : nat) (vs : list val) : bool :=
  forallb (fun v => match v with VRef c => (c <? n)%nat | _ => true end) vs.

Definition cell_ordered (l : nat) (o : hobj) : bool :=
  match o with
  | Obj ps => refs_below l ps.*2
  | Arr es => refs_below l es
  end.

Fixpoint ordered_from (l : nat) (h : heap) : bool :=
  match h with
  | [] => true
  | o :: h' => cell_ordered l o && ordered_from (S l) h'
  end.

Definition orderedb (h : heap) : bool := ordered_from 0 h.

(** A value that does not point outside the store. *)
Definition valid (h : heap) (v : val) : Prop :=
  match v with
  | VRef l => l < length h
  | _ => True
  end.

(** How a store relates to a later one: cells keep their kind, arrays
    keep their elements, and a plain object only loses properties whose
    value was prunable. *)
Definition cell_shrinks (h : heap) (o o' : option hobj) : Prop :=
  match o, o' with
  | None, None => True
  | Some (Arr es), Some (Arr es') => es = es'
  | Some (Obj ps), Some (Obj ps') =>
      (forall k v, Js.lookup_prop k ps' = Some v -> Js.lookup_prop k ps = Some v)
      /\ (forall k v, Js.lookup_prop k ps = Some v ->
                     Js.lookup_prop k ps' = Some v \/ prunable h v)
  | _, _ => False
  end.

Definition shrinks (h h' : heap) : Prop :=
  forall x, cell_shrinks h (h !! x) (h' !! x).

(** Pruned objects are left as they are. *)
Definition spares (h h' : heap) : Prop :=
  forall d x, pruned_upto d h x -> h' !! x = h !! x.

(** What one run of [cleanObject] does to the store. *)
Definition prunes (h h' : heap) : Prop := shrinks h h' /\ spares h h'.

(** *** Transcript words and chapters, as the payloads carry them *)

Record word : Type := { w_text : string; w_hidden : bool }.

(** [v] is a word object: its [text] is a string, and its [hidden]
    field, if any, is truthy exactly when the word is hidden. *)
Definition is_word (h : heap) (v : val) (w : word) : Prop :=
  exists l ps,
    v = VRef l /\ h !! l = Some (Obj ps)
    /\ Js.lookup_prop "text" ps = Some (VStr (w_text w))
    /\ Js.truthy (default VUndef (Js.lookup_prop "hidden" ps)) = w_hidden w.

(** The transcript in the words of the design document: hidden words
    and words that are empty or white space are left out, the others
    are trimmed and joined with single spaces. *)
Definition spec_transcript (ws : list word) : string :=
  Str.join " "
    (map (fun w => Str.trim (w_text w))
       (List.filter
          (fun w => negb (w_hidden w) && negb (Str.is_empty (Str.trim (w_text w))))
          ws)).

Record chapter : Type := {
  c_stamp : string;
  c_title : string;
  c_description : string
}.





(** The elements of [data.content.chapters]; none when the field is
    absent or not an array. *)
Definition payload_chapters (h : heap) (data : val) : list val :=
  Js.elems h (Js.get_opt h (Js.get_opt h data "content") "chapters").

(** *** Sample payloads *)

Module Sample.

Definition env : Content.env :=
  {| Content.storyId := Some "abc";
     Content.href := "https://www.tella.tv/video/abc/view";
     Content.now := "2024-12-01T00:00:00.000Z";
     Content.manifestVersion := Some "1.1.1";
     Content.stack := 64 |}.

(** The document of the end-to-end scenario. *)
Definition document : Json :=
  JObj [("story",
         JObj [("id", JStr "abc"); ("name", JStr "Demo");
               ("duration", JNum 125000); ("views", JNum 42);
               ("chapters",
                JArr [JObj [("timestamp", JNum 10); ("title", JStr "Intro")]])])].

(** The three words of the transcript scenario. *)
Definition transcription : Json :=
  JObj [("words",
         JArr [JObj [("text", JStr "Hello"); ("hidden", JBool false)];
               JObj [("text", JStr "secret"); ("hidden", JBool true)];
               JObj [("text", JStr "world"); ("hidden", JBool false)]])].

(** A transcription whose status entry is an object. *)
Definition status_object : Json :=
  JObj [("transcriptions", JArr [JObj [("n", JNull)]; JArr []])].

(** A transcription whose first segment is [null]. *)
Definition null_segment : Json :=
  JObj [("transcriptions", JArr [JStr "completed"; JArr [JNull]])].

(** A document with a [null] chapter. *)
Definition null_chapter : Json :=
  JObj [("story", JObj [("id", JStr "abc"); ("chapters", JArr [JNull])])].

Definition run (j : Json) : val * heap :=
  match load j [] with
  | Ok r => r
  | Throw _ => (VNull, [])
  end.

(** The stores that [response.json()] builds from the payloads. *)
Definition document_store : val * heap := Eval vm_compute in run document.
Definition transcription_store : val * heap :=
  Eval vm_compute in run transcription.

(** A transcription that keeps its words in the nested location. *)
Definition nested_transcription : Json :=
  JObj [("transcriptions",
         JArr [JStr "completed";
               JArr [JObj [("words",
                            JArr [JObj [("text", JStr " So")];
                                  JObj [("text", JStr "it ")];
                                  JObj [("text", JStr "  ")];
                                  JObj [("text", JStr "begins")]])]]])].

Definition nested_store : val * heap :=
  Eval vm_compute in run nested_transcription.


End Sample.

(** A fetch that gives no data: a rejected promise, a status outside
    2xx, or a body that is not JSON. *)
Definition fetch_failed (f : fetched) : Prop :=
  match f with
  | Resolved true (Some _) => False
  | _ => True
  end.

(** [load] succeeds, only adds cells, and keeps the store ordered. *)
Definition loads_well (j : Json) : Prop :=
  forall h, ordered h ->
    exists v h2,
      load j h = Ok (v, h ++ h2) /\ ordered (h ++ h2) /\ valid (h ++ h2) v.

(** The entries of the document's chapter list, as [parseChapters]
    receives them; none when the field is absent or not an array. *)
Definition raw_chapters (h : heap) (data : val) : list val :=
  Js.elems h (Js.get_opt h (Js.or (Js.get_opt h data "story") data) "chapters").

(** *** What pruning keeps *)

(** [v] holds data: it is a string, a number, a boolean or an array, or
    it is a plain object one of whose properties holds data. *)
Inductive holds_data (h : heap) : val -> Prop :=
| holds_leaf (v : val) : ~ prunable h v -> holds_data h v
| holds_node (c : loc) (ps : list (string * val)) (k : string) (v : val) :
    h !! c = Some (Obj ps) ->
    Js.lookup_prop k ps = Some v ->
    holds_data h v ->
    holds_data h (VRef c).

(** Every property that holds data in [h] is still there in [h'], on
    whatever object of the store it sits. *)
Definition retains (h h' : heap) : Prop :=
  forall (x : loc) (ps : list (string * val)) (k : string) (v : val),
    h !! x = Some (Obj ps) -> Js.lookup_prop k ps = Some v -> holds_data h v ->
    Js.lookup_prop k (Js.props h' (VRef x)) = Some v.

(** *** Chapter entries *)


(** *** Transcript segments *)







(** *** Durations *)

(** A duration in whole seconds, or none: [null], a natural number, or
    [Infinity]. *)
Definition whole_seconds (v : val) : Prop :=
  v = VNull \/ v = VNum PosInf
  \/ exists z : Z, (0 <= z)%Z /\ v = VNum (Num.of_Z z).

(** * Proofs *)

Section Duration.
Import Content.






Lemma formatDuration_S (stack : nat) (h : heap) (input : val) :
  formatDuration (S stack) h input =
  let nested : val :=
    if Js.truthy input && Js.truthy (Js.get_opt h input "duration")
    then match formatDuration stack h (Js.get_opt h input "duration") with
         | Ok v => v
         | Throw _ => VNull
         end
    else VNull in
  match input with
  | VNum n => Ok (if Num.isNaN n then nested else Content.normalize n)
  | VStr s =>
      Ok (if Num.isNaN (Str.parseFloat s) then nested
          else normalize (Str.parseFloat s))
  | _ => Ok nested
  end.
Proof. reflexivity. Qed.

Lemma formatDuration_returns (stack : nat) (h : heap) (input : val) :
  exists v, formatDuration (S stack) h input = Ok v.
Proof. rewrite formatDuration_S. destruct input; simpl; eauto. Qed.







End Duration.

(** ** Timestamps *)

(** C9. 125 seconds is [2:05] in the preview format, minutes without a
    leading zero (the extractor and the sidebar have the same method),
    and [02:05] in the format with leading zeros. *)
Theorem formatTimestamp_125 :
  Content.formatTimestamp (VNum (Fin 125)) = "2:05"
  /\ Sidebar.formatTimestamp (VNum (Fin 125)) = "2:05"
  /\ Sidebar.formatTimestampWithLeadingZeros (VNum (Fin 125)) = "02:05".
Proof. split_and!; reflexivity. Qed.

(** ** The identifier resolver *)

Section Resolver.
Import Content.



















End Resolver.

(** ** The recursive prune step *)

Section Pruning.
Import Content.

Lemma lookup_prop_delete (k k' : string) (ps : list (string * val)) :
  Js.lookup_prop k' (Js.delete_prop k ps)
  = if String.eqb k k' then None else Js.lookup_prop k' ps.
Proof.
  induction ps as [|[k0 v0] ps IH]; simpl.
  - by destruct (String.eqb k k').
  - destruct (String.eqb k0 k) eqn:E0; simpl.
    + apply String.eqb_eq in E0 as ->. rewrite IH.
      by destruct (String.eqb k k').
    + destruct (String.eqb k0 k') eqn:E1; [|done].
      apply String.eqb_eq in E1 as ->.
      by rewrite String.eqb_sym, E0.
Qed.

Lemma lookup_prop_keys (k : string) (ps : list (string * val)) :
  k ∈ ps.*1 <-> exists v, Js.lookup_prop k ps = Some v.
Proof.
  induction ps as [|[k0 v0] ps IH]; simpl.
  - split; [by intros ?%elem_of_nil | by intros [? ?]].
  - destruct (String.eqb k0 k) eqn:E.
    + apply String.eqb_eq in E as ->. split; [eauto | left].
    + rewrite <- IH. rewrite elem_of_cons. split; [|auto].
      intros [->|?]; [|done]. by rewrite String.eqb_refl in E.
Qed.

Lemma lookup_prop_nonempty (ps : list (string * val)) :
  ps <> [] -> exists k v, Js.lookup_prop k ps = Some v.
Proof.
  destruct ps as [|[k v] ps]; [done|]. intros _. exists k, v.
  simpl. by rewrite String.eqb_refl.
Qed.

Lemma delete_prop_absent (k : string) (ps : list (string * val)) :
  Js.lookup_prop k ps = None -> Js.delete_prop k ps = ps.
Proof.
  induction ps as [|[k0 v0] ps IH]; simpl; [done|].
  destruct (String.eqb k0 k) eqn:E; [done|]. simpl. intros H. by rewrite IH.
Qed.

Lemma lookup_set_prop_eq (k : string) (v : val) (ps : list (string * val)) :
  Js.lookup_prop k (Js.set_prop k v ps) = Some v.
Proof.
  induction ps as [|[k' v'] ps IH]; simpl.
  - by rewrite String.eqb_refl.
  - destruct (String.eqb k' k) eqn:E; simpl.
    + by rewrite String.eqb_refl.
    + by rewrite E.
Qed.

Lemma lookup_set_prop_ne (k k' : string) (v : val) (ps : list (string * val)) :
  k <> k' -> Js.lookup_prop k' (Js.set_prop k v ps) = Js.lookup_prop k' ps.
Proof.
  intros Hne. induction ps as [|[k0 v0] ps IH]; simpl.
  - by rewrite (proj2 (String.eqb_neq k k')).
  - destruct (String.eqb k0 k) eqn:E; simpl.
    + apply String.eqb_eq in E as ->.
      by rewrite (proj2 (String.eqb_neq k k')).
    + by rewrite IH.
Qed.

Lemma props_obj (h : heap) (l : loc) (ps : list (string * val)) :
  h !! l = Some (Obj ps) -> Js.props h (VRef l) = ps.
Proof. intros H. simpl. by rewrite H. Qed.

(** *** The relation between stores *)

Lemma cell_shrinks_refl (h : heap) (o : option hobj) : cell_shrinks h o o.
Proof. destruct o as [[ps|es]|]; simpl; auto. Qed.

Lemma shrinks_refl (h : heap) : shrinks h h.
Proof. intros x. apply cell_shrinks_refl. Qed.

Lemma shrinks_is_obj (h h' : heap) (c : loc) :
  shrinks h h' -> is_obj h c <-> is_obj h' c.
Proof.
  intros Hs. generalize (Hs c). unfold is_obj, cell_shrinks.
  destruct (h !! c) as [[ps|es]|], (h' !! c) as [[ps'|es']|];
    intros Hc; try done.
  all: split; intros [? ?]; simplify_eq; eauto.
Qed.

Lemma shrinks_prunable (h h' : heap) (v : val) :
  shrinks h h' -> prunable h' v -> prunable h v.
Proof.
  intros Hs [?|(c & -> & Hc)]; [by left|]. right. exists c. split; [done|].
  by eapply shrinks_is_obj.
Qed.

Lemma shrinks_trans (h1 h2 h3 : heap) :
  shrinks h1 h2 -> shrinks h2 h3 -> shrinks h1 h3.
Proof.
  intros H12 H23 x. generalize (H12 x) (H23 x). unfold cell_shrinks.
  destruct (h1 !! x) as [[ps1|es1]|], (h2 !! x) as [[ps2|es2]|],
    (h3 !! x) as [[ps3|es3]|]; try done; [|congruence].
  intros [A1 A2] [B1 B2]. split.
  - auto.
  - intros k v Hk. destruct (A2 k v Hk) as [Hk2|?]; [|by right].
    destruct (B2 k v Hk2) as [?|Hp]; [by left|]. right.
    by eapply shrinks_prunable.
Qed.

Lemma shrinks_lookup (h h' : heap) (l : loc) (k : string) (v : val) :
  shrinks h h' ->
  Js.lookup_prop k (Js.props h' (VRef l)) = Some v ->
  Js.lookup_prop k (Js.props h (VRef l)) = Some v.
Proof.
  intros Hs. generalize (Hs l). unfold cell_shrinks. simpl.
  destruct (h !! l) as [[ps|es]|], (h' !! l) as [[ps'|es']|]; try done.
  intros [A _]. apply A.
Qed.

Lemma pruned_upto_spared (d : nat) (h h' : heap) (x : loc) :
  shrinks h h' -> spares h h' -> pruned_upto d h x -> pruned_upto d h' x.
Proof.
  intros Hs Hsp. revert x. induction d as [|d IH]; intros x; [done|].
  intros Hx. pose proof (Hsp _ _ Hx) as Hsame.
  destruct Hx as (ps & Hl & Hps). exists ps. split; [congruence|].
  intros k v Hk. destruct (Hps k v Hk) as [Hn Hc]. split; [done|].
  intros c ps' -> Hc'.
  assert (is_obj h c) as [ps0 Hc0] by (eapply shrinks_is_obj; [done|by eexists]).
  destruct (Hc c ps0 eq_refl Hc0) as [Hne Hp].
  pose proof (Hsp _ _ Hp) as Hcsame.
  split; [congruence|]. by apply IH.
Qed.

Lemma spares_trans (h1 h2 h3 : heap) :
  shrinks h1 h2 -> spares h1 h2 -> spares h2 h3 -> spares h1 h3.
Proof.
  intros Hs H12 H23 d x Hx. rewrite <- (H12 _ _ Hx).
  eapply H23. by eapply pruned_upto_spared.
Qed.

(** *** Deleting a key *)

Lemma delete_key_lookup (h : heap) (l x : loc) (k : string) :
  delete_key l k h !! x =
  match h !! l with
  | Some (Obj ps) =>
      if decide (x = l) then Some (Obj (Js.delete_prop k ps)) else h !! x
  | _ => h !! x
  end.
Proof.
  unfold delete_key. destruct (h !! l) as [[ps|es]|] eqn:Hl; try done.
  destruct (decide (x = l)) as [->|Hne].
  - apply list_lookup_insert_eq. by eapply lookup_lt_Some.
  - by apply list_lookup_insert_ne.
Qed.

Lemma delete_key_gone (h : heap) (l : loc) (k : string) :
  Js.lookup_prop k (Js.props (delete_key l k h) (VRef l)) = None.
Proof.
  simpl. rewrite delete_key_lookup.
  destruct (h !! l) as [[ps|es]|] eqn:Hl; rewrite ?Hl; try done.
  rewrite decide_True by done. rewrite lookup_prop_delete.
  by rewrite String.eqb_refl.
Qed.

Lemma delete_key_shrinks (h : heap) (l : loc) (k : string) :
  prunable h (default VUndef (Js.lookup_prop k (Js.props h (VRef l)))) ->
  shrinks h (delete_key l k h).
Proof.
  intros Hp x. rewrite delete_key_lookup. simpl in Hp.
  destruct (h !! l) as [[ps|es]|] eqn:Hl; try apply cell_shrinks_refl.
  destruct (decide (x = l)) as [->|]; [|apply cell_shrinks_refl].
  rewrite Hl. simpl. split.
  - intros k' v. rewrite lookup_prop_delete.
    by destruct (String.eqb k k').
  - intros k' v Hk'. rewrite lookup_prop_delete.
    destruct (String.eqb k k') eqn:E; [|by left].
    apply String.eqb_eq in E as ->. rewrite Hk' in Hp. by right.
Qed.

Lemma delete_key_spares (h : heap) (l : loc) (k : string) :
  (forall v, Js.lookup_prop k (Js.props h (VRef l)) = Some v ->
             nullish v = true \/ empty_obj h v) ->
  spares h (delete_key l k h).
Proof.
  intros Hv d x Hx. rewrite delete_key_lookup.
  destruct (h !! l) as [[ps|es]|] eqn:Hl; try done.
  destruct (decide (x = l)) as [->|]; [|done].
  rewrite Hl. f_equal. f_equal.
  destruct (Js.lookup_prop k ps) as [v|] eqn:Hk; [|by apply delete_prop_absent].
  exfalso. destruct d as [|d]; [done|].
  destruct Hx as (ps' & Hl' & Hps). rewrite Hl in Hl'. injection Hl' as <-.
  destruct (Hps k v Hk) as [Hn Hc].
  destruct (Hv v) as [?|(c & -> & Hempty)].
  - simpl. by rewrite Hl.
  - congruence.
  - by destruct (Hc c [] eq_refl Hempty) as [? _].
Qed.

Lemma prunes_refl (h : heap) : prunes h h.
Proof. split; [apply shrinks_refl | by intros d x _]. Qed.

Lemma prunes_trans (h1 h2 h3 : heap) :
  prunes h1 h2 -> prunes h2 h3 -> prunes h1 h3.
Proof.
  intros [S12 P12] [S23 P23]. split.
  - by eapply shrinks_trans.
  - by eapply spares_trans.
Qed.

Lemma kept_prunes (d : nat) (h h' : heap) (v : val) :
  prunes h h' -> kept (pruned_upto d h) h v -> kept (pruned_upto d h') h' v.
Proof.
  intros [Hs Hsp] [Hn Hc]. split; [done|]. intros c ps' -> Hc'.
  assert (is_obj h c) as [ps0 Hc0] by (eapply shrinks_is_obj; [done|by eexists]).
  destruct (Hc c ps0 eq_refl Hc0) as [Hne Hp].
  pose proof (Hsp _ _ Hp) as Hsame. split; [congruence|].
  by eapply pruned_upto_spared.
Qed.

(** *** One key, all keys, the whole object *)

Section Loop.
Variable rec : loc -> heap -> result heap.
Hypothesis rec_prunes : forall c h h', rec c h = Ok h' -> prunes h h'.

Lemma clean_key_prunes (l : loc) (k : string) (h h' : heap) :
  clean_key rec l k h = Ok h' -> prunes h h'.
Proof.
  unfold clean_key.
  destruct (default VUndef (Js.lookup_prop k (Js.props h (VRef l))))
    as [| | | | |c] eqn:Hv; try (intros [= <-]; apply prunes_refl).
  - intros [= <-]. split.
    + apply delete_key_shrinks. rewrite Hv. by left.
    + apply delete_key_spares. intros v Hk. rewrite Hk in Hv. simpl in Hv.
      subst v. by left.
  - intros [= <-]. split.
    + apply delete_key_shrinks. rewrite Hv. by left.
    + apply delete_key_spares. intros v Hk. rewrite Hk in Hv. simpl in Hv.
      subst v. by left.
  - destruct (h !! c) as [[ps|es]|] eqn:Hc;
      try (intros [= <-]; apply prunes_refl).
    destruct (rec c h) as [hr|] eqn:Hr; [|done].
    pose proof (rec_prunes _ _ _ Hr) as Hp.
    assert (is_obj hr c) as [psr Hcr].
    { apply (shrinks_is_obj h hr c (proj1 Hp)). by eexists. }
    rewrite (props_obj _ _ _ Hcr).
    destruct psr as [|p psr]; intros [= <-]; [|done].
    eapply prunes_trans; [exact Hp|].
    assert (forall v, Js.lookup_prop k (Js.props hr (VRef l)) = Some v ->
                      v = VRef c) as Hsame.
    { intros v Hk. apply (shrinks_lookup h) in Hk; [|apply (proj1 Hp)].
      rewrite Hk in Hv. by simpl in Hv. }
    split.
    + apply delete_key_shrinks.
      destruct (Js.lookup_prop k (Js.props hr (VRef l))) as [v|] eqn:Hk;
        [|by left].
      rewrite (Hsame v eq_refl). right. exists c. split; [done|by eexists].
    + apply delete_key_spares. intros v Hk. right. exists c.
      by rewrite (Hsame v Hk).
Qed.

Lemma clean_keys_prunes (l : loc) (keys : list string) (h h' : heap) :
  clean_keys rec l keys h = Ok h' -> prunes h h'.
Proof.
  revert h. induction keys as [|k keys IH]; intros h; simpl.
  - intros [= <-]. apply prunes_refl.
  - destruct (clean_key rec l k h) as [h1|] eqn:H1; [|done].
    intros H. eapply prunes_trans; [by eapply clean_key_prunes|by apply IH].
Qed.

End Loop.

Lemma cleanObject_prunes (stack : nat) (l : loc) (h h' : heap) :
  cleanObject stack l h = Ok h' -> prunes h h'.
Proof.
  revert l h h'. induction stack as [|stack IH]; intros l h h'; [done|].
  simpl. apply clean_keys_prunes. exact IH.
Qed.

Lemma cleanObject_S (stack : nat) (l : loc) (h : heap) :
  cleanObject (S stack) l h
  = clean_keys (cleanObject stack) l (Js.props h (VRef l)).*1 h.
Proof. reflexivity. Qed.

(** The loop establishes [kept] for every key it has gone through. *)
Lemma clean_keys_kept (stack : nat) (l : loc) (keys done : list string)
    (h h' : heap) :
  (forall c h h', is_obj h c -> cleanObject stack c h = Ok h' ->
                  pruned_upto stack h' c) ->
  clean_keys (cleanObject stack) l keys h = Ok h' ->
  (forall k v, k ∈ done -> Js.lookup_prop k (Js.props h (VRef l)) = Some v ->
               kept (pruned_upto stack h) h v) ->
  forall k v, k ∈ done ++ keys ->
              Js.lookup_prop k (Js.props h' (VRef l)) = Some v ->
              kept (pruned_upto stack h') h' v.
Proof.
  intros IH. revert done h. induction keys as [|key keys IHkeys];
    intros done h; simpl.
  - intros [= <-] Hdone k v. rewrite app_nil_r. apply Hdone.
  - destruct (clean_key (cleanObject stack) l key h) as [h1|] eqn:H1; [|done].
    intros Hrest Hdone k v Hk.
    apply (IHkeys (done ++ [key]) h1 Hrest); [|by rewrite <- app_assoc].
    clear k v Hk Hrest IHkeys.
    pose proof (clean_key_prunes _ (cleanObject_prunes stack) _ _ _ _ H1) as Hp.
    intros k v [Hk|Hk%list_elem_of_singleton]%elem_of_app Hlk.
    { eapply kept_prunes; [exact Hp|]. apply (Hdone k); [done|].
      by eapply shrinks_lookup; [apply Hp|]. }
    subst k. revert H1 Hlk. unfold clean_key.
    destruct (default VUndef (Js.lookup_prop key (Js.props h (VRef l))))
      as [| |b|n|s|c] eqn:Hv.
    + intros [= <-]. by rewrite delete_key_gone.
    + intros [= <-]. by rewrite delete_key_gone.
    + intros [= <-] Hlk. rewrite Hlk in Hv. simpl in Hv. subst v.
      split; [done|]. by intros c ps' [=].
    + intros [= <-] Hlk. rewrite Hlk in Hv. simpl in Hv. subst v.
      split; [done|]. by intros c ps' [=].
    + intros [= <-] Hlk. rewrite Hlk in Hv. simpl in Hv. subst v.
      split; [done|]. by intros c ps' [=].
    + destruct (h !! c) as [[ps|es]|] eqn:Hc.
      * destruct (cleanObject stack c h) as [hr|] eqn:Hr; [|done].
        assert (is_obj h c) as Hobj by by eexists.
        pose proof (IH _ _ _ Hobj Hr) as Hpr.
        destruct (Js.props hr (VRef c)) as [|p psr] eqn:Hpsr.
        { intros [= <-]. by rewrite delete_key_gone. }
        intros [= <-] Hlk.
        assert (v = VRef c) as ->.
        { apply (shrinks_lookup h) in Hlk; [|apply Hp].
          rewrite Hlk in Hv. by simpl in Hv. }
        split; [done|]. intros c' ps' [= <-] Hc'.
        rewrite (props_obj _ _ _ Hc') in Hpsr. by subst ps'.
      * intros [= <-] Hlk. rewrite Hlk in Hv. simpl in Hv. subst v.
        split; [done|]. intros c' ps' [= <-]. by rewrite Hc.
      * intros [= <-] Hlk. rewrite Hlk in Hv. simpl in Hv. subst v.
        split; [done|]. intros c' ps' [= <-]. by rewrite Hc.
Qed.

(** After [cleanObject], the object is pruned. *)
Lemma cleanObject_pruned (stack : nat) (l : loc) (h h' : heap) :
  is_obj h l -> cleanObject stack l h = Ok h' -> pruned_upto stack h' l.
Proof.
  revert l h h'. induction stack as [|stack IH]; intros l h h' Hobj; [done|].
  simpl. intros Hrun.
  pose proof (clean_keys_prunes _ (cleanObject_prunes stack) _ _ _ _ Hrun) as [Hs _].
  destruct (proj1 (shrinks_is_obj h h' l Hs) Hobj) as [ps' Hl'].
  exists ps'. split; [done|]. intros k v Hk.
  rewrite <- (props_obj _ _ _ Hl') in Hk.
  eapply (clean_keys_kept stack l _ [] h h' IH Hrun).
  - intros k' v' Hk'. by apply elem_of_nil in Hk'.
  - rewrite app_nil_l. apply lookup_prop_keys. exists v.
    by eapply shrinks_lookup.
  - done.
Qed.

(** On a pruned object, [cleanObject] changes nothing. *)
Lemma cleanObject_pruned_id (stack : nat) (l : loc) (h : heap) :
  pruned_upto stack h l -> cleanObject stack l h = Ok h.
Proof.
  revert l. induction stack as [|stack IH]; intros l; [done|].
  intros (ps & Hl & Hps). simpl. rewrite Hl.
  assert (forall keys, (forall k, k ∈ keys -> k ∈ ps.*1) ->
            clean_keys (cleanObject stack) l keys h = Ok h) as Hloop.
  { induction keys as [|k keys IHkeys]; intros Hin; [done|]. simpl.
    assert (clean_key (cleanObject stack) l k h = Ok h) as ->.
    { destruct (proj1 (lookup_prop_keys k ps)) as [v Hk]; [apply Hin; left|].
      destruct (Hps k v Hk) as [Hn Hc]. unfold clean_key.
      rewrite (props_obj _ _ _ Hl), Hk. simpl.
      destruct v as [| |b|n|s|c]; try done.
      destruct (h !! c) as [[psc|es]|] eqn:Hcc; try done.
      destruct (Hc c psc eq_refl Hcc) as [Hne Hp].
      rewrite (IH _ Hp). simpl. rewrite ?Hcc. by destruct psc. }
    apply IHkeys. intros k' Hk'. apply Hin. by right. }
  by apply Hloop.
Qed.

(** [cleanObject] is idempotent. *)
Lemma cleanObject_idempotent (stack : nat) (l : loc) (h h' : heap) :
  cleanObject stack l h = Ok h' -> cleanObject stack l h' = Ok h'.
Proof.
  intros Hrun. destruct (h !! l) as [[ps|es]|] eqn:Hl.
  - apply cleanObject_pruned_id. eapply cleanObject_pruned; [|done]. by eexists.
  - destruct stack as [|stack]; [done|]. simpl in *. rewrite Hl in Hrun.
    simpl in Hrun. injection Hrun as <-. by rewrite Hl.
  - destruct stack as [|stack]; [done|]. simpl in *. rewrite Hl in Hrun.
    simpl in Hrun. injection Hrun as <-. by rewrite Hl.
Qed.

(** *** Termination on stores in allocation order *)

Lemma shrinks_ordered (h h' : heap) : shrinks h h' -> ordered h -> ordered h'.
Proof.
  intros Hs [Ho Ha]. split.
  - intros l ps k c Hl Hk.
    assert (is_obj h l) as [ps0 Hl0]
      by (eapply shrinks_is_obj; [done|by eexists]).
    apply (Ho l ps0 k c Hl0).
    rewrite <- (props_obj _ _ _ Hl0). apply (shrinks_lookup h h'); [done|].
    by rewrite (props_obj _ _ _ Hl).
  - intros l es i c Hl Hi. apply (Ha l es i c); [|done].
    generalize (Hs l). unfold cell_shrinks. rewrite Hl.
    destruct (h !! l) as [[ps0|es0]|]; try done. by intros ->.
Qed.

Lemma cleanObject_total (stack : nat) (l : loc) (h : heap) :
  ordered h -> l < stack -> exists h', cleanObject stack l h = Ok h'.
Proof.
  revert l h. induction stack as [|stack IH]; intros l h Ho Hlt; [lia|].
  rewrite cleanObject_S. generalize ((Js.props h (VRef l)).*1). intros keys.
  revert h Ho. induction keys as [|k keys IHkeys]; intros h Ho; simpl; [eauto|].
  assert (exists h1, clean_key (cleanObject stack) l k h = Ok h1) as [h1 H1].
  { unfold clean_key.
    destruct (default VUndef (Js.lookup_prop k (Js.props h (VRef l))))
      as [| |b|n|s|c] eqn:Hv; eauto.
    destruct (h !! c) as [[psc|es]|] eqn:Hc; eauto.
    assert (c < l) as Hcl.
    { simpl in Hv. destruct (h !! l) as [[ps|es]|] eqn:Hl; try done.
      destruct (Js.lookup_prop k ps) as [v|] eqn:Hk; [|done].
      simpl in Hv. subst v. by eapply (proj1 Ho). }
    destruct (IH c h Ho) as [hr ->]; [lia|].
    destruct (Js.props hr (VRef c)); eauto. }
  rewrite H1. apply IHkeys. eapply shrinks_ordered; [|done].
  by eapply clean_key_prunes; [apply cleanObject_prunes|].
Qed.

(** *** What is out of reach is not touched *)

Lemma shrinks_obj_edge (h h' : heap) (x c : loc) :
  shrinks h h' -> obj_edge h' x c -> obj_edge h x c.
Proof.
  intros Hs (ps & k & Hx & Hk & Hc).
  assert (is_obj h x) as [ps0 Hx0] by (eapply shrinks_is_obj; [done|by eexists]).
  exists ps0, k. split_and!; [done| |by eapply shrinks_is_obj].
  rewrite <- (props_obj _ _ _ Hx0). apply (shrinks_lookup h h'); [done|].
  by rewrite (props_obj _ _ _ Hx).
Qed.

Lemma shrinks_obj_reach (h h' : heap) (x y : loc) :
  shrinks h h' -> obj_reach h' x y -> obj_reach h x y.
Proof.
  intros Hs. induction 1 as [|a b c Hab _ IH]; [apply rtc_refl|].
  eapply rtc_l; [by eapply shrinks_obj_edge|done].
Qed.

Lemma delete_key_other (h : heap) (l x : loc) (k : string) :
  x <> l -> delete_key l k h !! x = h !! x.
Proof.
  intros Hne. rewrite delete_key_lookup.
  destruct (h !! l) as [[ps|es]|]; try done. by rewrite decide_False.
Qed.

Lemma cleanObject_frame (stack : nat) (l : loc) (h h' : heap) :
  cleanObject stack l h = Ok h' ->
  forall x, ~ obj_reach h l x -> h' !! x = h !! x.
Proof.
  revert l h h'. induction stack as [|stack IH]; intros l h h'; [done|].
  rewrite cleanObject_S. generalize ((Js.props h (VRef l)).*1). intros keys.
  assert (forall hc, shrinks h hc ->
            (forall x, ~ obj_reach h l x -> hc !! x = h !! x) ->
            clean_keys (cleanObject stack) l keys hc = Ok h' ->
            forall x, ~ obj_reach h l x -> h' !! x = h !! x) as Hloop.
  { induction keys as [|k keys IHkeys]; intros hc Hs Hc; simpl.
    - by intros [= <-].
    - destruct (clean_key (cleanObject stack) l k hc) as [h1|] eqn:H1; [|done].
      apply IHkeys.
      + eapply shrinks_trans; [done|].
        by eapply clean_key_prunes; [apply cleanObject_prunes|].
      + intros x Hx. rewrite <- (Hc x Hx). revert H1. unfold clean_key.
        assert (x <> l) as Hxl by (intros ->; apply Hx, rtc_refl).
        destruct (default VUndef (Js.lookup_prop k (Js.props hc (VRef l))))
          as [| |b|n|s|c] eqn:Hv; try by intros [= <-].
        * intros [= <-]. by apply delete_key_other.
        * intros [= <-]. by apply delete_key_other.
        * destruct (hc !! c) as [[psc|es]|] eqn:Hcc; try by intros [= <-].
          destruct (cleanObject stack c hc) as [hr|] eqn:Hr; [|done].
          assert (hr !! x = hc !! x) as Hsame.
          { apply (IH _ _ _ Hr). intros Hreach. apply Hx.
            eapply rtc_l; [|by eapply shrinks_obj_reach].
            apply (shrinks_obj_edge h hc); [done|].
            simpl in Hv. destruct (hc !! l) as [[ps|es]|] eqn:Hl; try done.
            destruct (Js.lookup_prop k ps) as [v|] eqn:Hk; [|done].
            simpl in Hv. subst v. exists ps, k. split_and!; [done..|by eexists]. }
          destruct (Js.props hr (VRef c)); intros [= <-]; [|done].
          by rewrite delete_key_other. }
  apply Hloop; [apply shrinks_refl|done].
Qed.

(** A key is only deleted when its value was prunable. *)
Lemma cleanObject_keeps (stack : nat) (l : loc) (h h' : heap) (k : string)
    (v : val) :
  cleanObject stack l h = Ok h' ->
  Js.lookup_prop k (Js.props h (VRef l)) = Some v ->
  ~ prunable h v ->
  Js.lookup_prop k (Js.props h' (VRef l)) = Some v.
Proof.
  intros Hrun Hk Hnp. apply cleanObject_prunes in Hrun as [Hs _].
  generalize (Hs l). revert Hk. unfold cell_shrinks. simpl.
  destruct (h !! l) as [[ps|es]|], (h' !! l) as [[ps'|es']|]; try done.
  intros Hk [_ B]. by destruct (B k v Hk).
Qed.

Lemma cleanObject_array (stack : nat) (l : loc) (h h' : heap) (a : loc)
    (es : list val) :
  cleanObject stack l h = Ok h' -> h !! a = Some (Arr es) ->
  h' !! a = Some (Arr es).
Proof.
  intros Hrun Ha. apply cleanObject_prunes in Hrun as [Hs _].
  generalize (Hs a). unfold cell_shrinks. rewrite Ha.
  destruct (h' !! a) as [[ps'|es']|]; try done. by intros <-.
Qed.

End Pruning.

(** ** Stores in allocation order *)

Section Stores.
Import Content.

Lemma bind_lift_Ok {A B : Type} (f : heap -> result A) (k : A -> M B)
    (h : heap) (a : A) :
  f h = Ok a -> bind (fun h0 => lift (f h0) h0) k h = k a h.
Proof. intros H. unfold bind, lift. by rewrite H. Qed.

Lemma bind_reading {A B : Type} (f : heap -> A) (k : A -> M B) (h : heap) :
  bind (reading f) k h = k (f h) h.
Proof. reflexivity. Qed.

Lemma bind_ret {A B : Type} (a : A) (k : A -> M B) (h : heap) :
  bind (ret a) k h = k a h.
Proof. reflexivity. Qed.

Lemma bind_alloc {B : Type} (o : hobj) (k : val -> M B) (h : heap) :
  bind (alloc o) k h = k (VRef (length h)) (h ++ [o]).
Proof. reflexivity. Qed.

Lemma lookup_extend (h h2 : heap) (l : loc) (o : hobj) :
  h !! l = Some o -> (h ++ h2) !! l = Some o.
Proof. apply lookup_app_l_Some. Qed.


Lemma lookup_prop_elem (k : string) (v : val) (ps : list (string * val)) :
  Js.lookup_prop k ps = Some v -> v ∈ ps.*2.
Proof.
  induction ps as [|[k' v'] ps IH]; simpl; [done|].
  destruct (String.eqb k' k).
  - intros [= ->]. left.
  - intros H. right. by apply IH.
Qed.

Lemma refs_below_elem (n : nat) (vs : list val) (c : loc) :
  refs_below n vs = true -> VRef c ∈ vs -> c < n.
Proof.
  unfold refs_below. rewrite forallb_forall. intros H Hin.
  apply list_elem_of_In in Hin. apply H in Hin. by apply Nat.ltb_lt.
Qed.

Lemma ordered_from_lookup (n : nat) (h : heap) (l : loc) (o : hobj) :
  ordered_from n h = true -> h !! l = Some o -> cell_ordered (n + l) o = true.
Proof.
  revert n l. induction h as [|o' h IH]; intros n l; simpl; [done|].
  intros [Ho Hh]%andb_true_iff. destruct l as [|l]; simpl.
  - intros [= <-]. by rewrite Nat.add_0_r.
  - intros Hl. replace (n + S l) with (S n + l) by lia. by apply IH.
Qed.

Lemma orderedb_ordered (h : heap) : orderedb h = true -> ordered h.
Proof.
  intros Hb. split.
  - intros l ps k c Hl Hk.
    pose proof (ordered_from_lookup 0 h l _ Hb Hl) as Hc. simpl in Hc.
    eapply refs_below_elem; [exact Hc|]. by eapply lookup_prop_elem.
  - intros l es i c Hl Hi.
    pose proof (ordered_from_lookup 0 h l _ Hb Hl) as Hc. simpl in Hc.
    eapply refs_below_elem; [exact Hc|]. by eapply list_elem_of_lookup_2.
Qed.

Lemma valid_extend (h h2 : heap) (v : val) : valid h v -> valid (h ++ h2) v.
Proof. destruct v; simpl; try done. rewrite length_app. lia. Qed.

Lemma valid_alloc (h : heap) (o : hobj) : valid (h ++ [o]) (VRef (length h)).
Proof. simpl. rewrite length_app. simpl. lia. Qed.

Lemma valid_or (h : heap) (a b : val) :
  valid h a -> valid h b -> valid h (Js.or a b).
Proof. unfold Js.or. by destruct (Js.truthy a). Qed.

(** Reading from a valid value gives the same in a larger store. *)
Lemma props_extend (h h2 : heap) (v : val) :
  valid h v -> Js.props (h ++ h2) v = Js.props h v.
Proof. destruct v; simpl; try done. intros Hl. by rewrite lookup_app_l. Qed.

Lemma elems_extend (h h2 : heap) (v : val) :
  valid h v -> Js.elems (h ++ h2) v = Js.elems h v.
Proof. destruct v; simpl; try done. intros Hl. by rewrite lookup_app_l. Qed.

Lemma isArray_extend (h h2 : heap) (v : val) :
  valid h v -> Js.isArray (h ++ h2) v = Js.isArray h v.
Proof. destruct v; simpl; try done. intros Hl. by rewrite lookup_app_l. Qed.

Lemma get_extend (h h2 : heap) (v : val) (k : string) :
  valid h v -> Js.get (h ++ h2) v k = Js.get h v k.
Proof.
  intros Hv. destruct v; try done. unfold Js.get. by rewrite props_extend.
Qed.

Lemma get_opt_extend (h h2 : heap) (v : val) (k : string) :
  valid h v -> Js.get_opt (h ++ h2) v k = Js.get_opt h v k.
Proof. intros Hv. unfold Js.get_opt. by rewrite get_extend. Qed.

Lemma index_extend (h h2 : heap) (v : val) (i : nat) :
  valid h v -> Js.index (h ++ h2) v i = Js.index h v i.
Proof. intros Hv. unfold Js.index. by rewrite elems_extend. Qed.

(** What is read from an ordered store is valid. *)
Lemma valid_lookup_prop (h : heap) (l : loc) (ps : list (string * val))
    (k : string) (v : val) :
  ordered h -> h !! l = Some (Obj ps) -> Js.lookup_prop k ps = Some v ->
  valid h v.
Proof.
  intros [Ho _] Hl Hk. destruct v as [| | | | |c]; try done. simpl.
  pose proof (Ho l ps k c Hl Hk). apply lookup_lt_Some in Hl. lia.
Qed.

Lemma valid_get_opt (h : heap) (v : val) (k : string) :
  ordered h -> valid h (Js.get_opt h v k).
Proof.
  intros Ho. unfold Js.get_opt, Js.get.
  destruct v as [| | | | |l]; try done. simpl.
  destruct (h !! l) as [[ps|es]|] eqn:Hl; try done.
  destruct (Js.lookup_prop k ps) as [x|] eqn:Hk; [|done].
  by eapply valid_lookup_prop.
Qed.

Lemma valid_get (h : heap) (v x : val) (k : string) :
  ordered h -> Js.get h v k = Ok x -> valid h x.
Proof.
  intros Ho Hg. pose proof (valid_get_opt h v k Ho) as Hv.
  unfold Js.get_opt in Hv. by rewrite Hg in Hv.
Qed.

Lemma valid_elem (h : heap) (v x : val) (i : nat) :
  ordered h -> Js.elems h v !! i = Some x -> valid h x.
Proof.
  intros [_ Ha]. destruct v as [| | | | |l]; try done. simpl.
  destruct (h !! l) as [[ps|es]|] eqn:Hl; try done.
  intros Hi. destruct x as [| | | | |c]; try done. simpl.
  pose proof (Ha l es i c Hl Hi). apply lookup_lt_Some in Hl. lia.
Qed.

Lemma valid_index (h : heap) (v : val) (i : nat) :
  ordered h -> valid h (Js.index h v i).
Proof.
  intros Ho. unfold Js.index.
  destruct (Js.elems h v !! i) as [x|] eqn:Hi; [|done].
  by eapply valid_elem.
Qed.

Lemma valid_prefix (h h' : heap) (v : val) :
  h `prefix_of` h' -> valid h v -> valid h' v.
Proof. intros [k ->]. apply valid_extend. Qed.

Lemma get_opt_prefix (h h' : heap) (v : val) (k : string) :
  h `prefix_of` h' -> valid h v -> Js.get_opt h' v k = Js.get_opt h v k.
Proof. intros [k' ->]. apply get_opt_extend. Qed.

Lemma elems_prefix (h h' : heap) (v : val) :
  h `prefix_of` h' -> valid h v -> Js.elems h' v = Js.elems h v.
Proof. intros [k' ->]. apply elems_extend. Qed.

(** A new cell that only holds valid values keeps the order. *)
Lemma ordered_alloc (h : heap) (o : hobj) :
  ordered h ->
  match o with
  | Obj ps => forall k v, Js.lookup_prop k ps = Some v -> valid h v
  | Arr es => forall i v, es !! i = Some v -> valid h v
  end ->
  ordered (h ++ [o]).
Proof.
  intros [Ho Ha] Hnew. split.
  - intros l ps k c Hl Hk.
    destruct (decide (l < length h)) as [Hlt|Hge].
    + rewrite lookup_app_l in Hl by done. by eapply Ho.
    + rewrite lookup_app_r in Hl by lia.
      destruct (l - length h) as [|n] eqn:E; [|by destruct n].
      simpl in Hl. injection Hl as ->. specialize (Hnew k (VRef c) Hk).
      simpl in Hnew. lia.
  - intros l es i c Hl Hi.
    destruct (decide (l < length h)) as [Hlt|Hge].
    + rewrite lookup_app_l in Hl by done. by eapply Ha.
    + rewrite lookup_app_r in Hl by lia.
      destruct (l - length h) as [|n] eqn:E; [|by destruct n].
      simpl in Hl. injection Hl as ->. specialize (Hnew i (VRef c) Hi).
      simpl in Hnew. lia.
Qed.

(** *** Loading a JSON payload *)

Lemma Json_nested_ind (P : Json -> Prop) :
  P JNull -> (forall b, P (JBool b)) -> (forall q, P (JNum q)) ->
  (forall s, P (JStr s)) ->
  (forall items, Forall P items -> P (JArr items)) ->
  (forall members, Forall (fun m => P m.2) members -> P (JObj members)) ->
  forall j, P j.
Proof.
  intros HN HB HQ HS HA HO. fix IH 1. intros [|b|q|s|items|members].
  - exact HN.
  - apply HB.
  - apply HQ.
  - apply HS.
  - apply HA. induction items as [|i items IHitems]; constructor.
    + apply IH.
    + exact IHitems.
  - apply HO. induction members as [|[k i] members IHmembers]; constructor.
    + apply IH.
    + exact IHmembers.
Qed.

Lemma mapM_load_well (items : list Json) :
  Forall loads_well items ->
  forall h, ordered h ->
    exists vs h2,
      mapM load items h = Ok (vs, h ++ h2) /\ ordered (h ++ h2)
      /\ forall i v, vs !! i = Some v -> valid (h ++ h2) v.
Proof.
  induction 1 as [|j items Hj _ IH]; intros h Ho; simpl.
  - exists [], []. rewrite app_nil_r. split_and!; [done..|]. by intros [|?] ?.
  - destruct (Hj h Ho) as (v & h2 & Hload & Ho2 & Hv).
    destruct (IH _ Ho2) as (vs & h3 & Hrest & Ho3 & Hvs).
    exists (v :: vs), (h2 ++ h3). unfold bind. rewrite Hload, Hrest.
    rewrite app_assoc. split_and!; [done..|].
    intros [|i] x; simpl.
    + intros [= <-]. by apply valid_extend.
    + apply Hvs.
Qed.

Lemma lookup_set_prop (k k' : string) (v x : val) (ps : list (string * val)) :
  Js.lookup_prop k' (Js.set_prop k v ps) = Some x ->
  x = v \/ Js.lookup_prop k' ps = Some x.
Proof.
  destruct (decide (k = k')) as [<-|Hne].
  - rewrite lookup_set_prop_eq. intros [= <-]. by left.
  - rewrite lookup_set_prop_ne by done. by right.
Qed.

Lemma load_members_well (members : list (string * Json)) :
  Forall (fun m => loads_well m.2) members ->
  forall acc h, ordered h ->
    (forall k v, Js.lookup_prop k acc = Some v -> valid h v) ->
    exists ps h2,
      load_members load members acc h = Ok (ps, h ++ h2) /\ ordered (h ++ h2)
      /\ forall k v, Js.lookup_prop k ps = Some v -> valid (h ++ h2) v.
Proof.
  induction 1 as [|[k j] members Hj _ IH]; intros acc h Ho Hacc; simpl.
  - exists acc, []. rewrite app_nil_r. by split_and!.
  - destruct (Hj h Ho) as (v & h2 & Hload & Ho2 & Hv). simpl in Hload.
    destruct (IH (Js.set_prop k v acc) _ Ho2) as (ps & h3 & Hrest & Ho3 & Hps).
    { intros k' x [->|Hk']%lookup_set_prop; [done|].
      apply valid_extend. by eapply Hacc. }
    exists ps, (h2 ++ h3). unfold bind. rewrite Hload, Hrest.
    rewrite app_assoc. by split_and!.
Qed.

Lemma load_well (j : Json) : loads_well j.
Proof.
  induction j as [|b|q|s|items IH|members IH] using Json_nested_ind;
    intros h Ho.
  - exists VNull, []. rewrite app_nil_r. by split_and!.
  - exists (VBool b), []. rewrite app_nil_r. by split_and!.
  - exists (VNum (Fin q)), []. rewrite app_nil_r. by split_and!.
  - exists (VStr s), []. rewrite app_nil_r. by split_and!.
  - destruct (mapM_load_well items IH h Ho) as (vs & h2 & Hrun & Ho2 & Hvs).
    exists (VRef (length (h ++ h2))), (h2 ++ [Arr vs]).
    simpl. unfold bind. rewrite Hrun. unfold alloc. rewrite app_assoc.
    split_and!; [done| |apply valid_alloc]. by apply ordered_alloc.
  - destruct (load_members_well members IH [] h Ho) as (ps & h2 & Hrun & Ho2 & Hps).
    { by intros k v. }
    exists (VRef (length (h ++ h2))), (h2 ++ [Obj ps]).
    simpl. unfold bind. rewrite Hrun. unfold alloc. rewrite app_assoc.
    split_and!; [done| |apply valid_alloc]. by apply ordered_alloc.
Qed.

(** *** The normaliser completes *)

Lemma valid_props (h : heap) (ps : list (string * val)) :
  Forall (valid h) ps.*2 ->
  forall k v, Js.lookup_prop k ps = Some v -> valid h v.
Proof.
  intros Hall k v Hk. rewrite Forall_forall in Hall.
  apply Hall. by eapply lookup_prop_elem.
Qed.

Lemma get_not_nullish (h : heap) (v : val) (k : string) :
  nullish v = false -> Js.get h v k = Ok (Js.get_opt h v k).
Proof. by destruct v. Qed.

Lemma formatDuration_primitive (stack : nat) (h : heap) (v x : val) :
  formatDuration stack h v = Ok x -> forall h', valid h' x.
Proof.
  revert v x. induction stack as [|stack IH]; intros v x; [done|].
  assert (forall n h', valid h' (normalize n)) as Hnorm.
  { intros n h'. unfold normalize.
    by repeat match goal with |- context [if ?b then _ else _] => destruct b end. }
  assert (forall h',
            valid h'
              (if Js.truthy v && Js.truthy (Js.get_opt h v "duration")
               then match formatDuration stack h (Js.get_opt h v "duration") with
                    | Ok r => r
                    | Throw _ => VNull
                    end
               else VNull)) as Hnested.
  { intros h'. destruct (Js.truthy v && _); [|done].
    destruct (formatDuration stack h (Js.get_opt h v "duration")) eqn:E; [|done].
    by eapply IH. }
  simpl. destruct v as [| |b|n|s|l]; intros [= <-] h'; try apply Hnested.
  - destruct (Num.isNaN n); [apply Hnested | apply Hnorm].
  - destruct (Num.isNaN (Str.parseFloat s)); [apply Hnested | apply Hnorm].
Qed.

Lemma formatDuration_Ok (stack : nat) (h : heap) (v : val) :
  0 < stack -> exists x, formatDuration stack h v = Ok x.
Proof.
  destruct stack as [|stack]; [lia|]. intros _. simpl.
  destruct v; eauto.
Qed.

Lemma parseChapter_well (c : val) (h : heap) :
  ordered h -> nullish c = false ->
  exists o,
    parseChapter c h = Ok (VRef (length h), h ++ [o]) /\ ordered (h ++ [o]).
Proof.
  intros Ho Hc. unfold parseChapter.
  rewrite (bind_lift_Ok (fun h0 => Js.get h0 c "id") _ _ _
             (get_not_nullish h c _ Hc)).
  rewrite (bind_lift_Ok (fun h0 => Js.get h0 c "timestamp") _ _ _
             (get_not_nullish h c _ Hc)).
  rewrite (bind_lift_Ok (fun h0 => Js.get h0 c "title") _ _ _
             (get_not_nullish h c _ Hc)).
  rewrite (bind_lift_Ok (fun h0 => Js.get h0 c "description") _ _ _
             (get_not_nullish h c _ Hc)).
  eexists. split; [reflexivity|]. apply ordered_alloc; [done|].
  apply valid_props. simpl.
  repeat constructor; try apply valid_or; try done; by apply valid_get_opt.
Qed.

Lemma mapM_parseChapter_well (es : list val) :
  Forall (fun c => nullish c = false) es ->
  forall h, ordered h ->
    exists vs h2,
      mapM parseChapter es h = Ok (vs, h ++ h2)
      /\ ordered (h ++ h2) /\ length h2 = length es
      /\ forall i v, vs !! i = Some v -> valid (h ++ h2) v.
Proof.
  induction 1 as [|c es Hc _ IH]; intros h Ho; simpl.
  - exists [], []. rewrite app_nil_r. split_and!; [done..|]. by intros [|?] ?.
  - destruct (parseChapter_well c h Ho Hc) as (o & Hrun & Ho1).
    destruct (IH _ Ho1) as (vs & h2 & Hrest & Ho2 & Hlen & Hvs).
    exists (VRef (length h) :: vs), ([o] ++ h2).
    unfold bind. rewrite Hrun, Hrest. rewrite app_assoc.
    split_and!; [done..|by simpl; rewrite Hlen|].
    intros [|i] x; simpl.
    + intros [= <-]. unfold valid. rewrite !length_app. simpl. lia.
    + apply Hvs.
Qed.

Lemma parseChapters_well (chapters : val) (h : heap) :
  ordered h ->
  Forall (fun c => nullish c = false) (Js.elems h chapters) ->
  exists v h2,
    parseChapters chapters h = Ok (v, h ++ h2)
    /\ ordered (h ++ h2) /\ valid (h ++ h2) v
    /\ length h2 = S (length (Js.elems h chapters)).
Proof.
  intros Ho Hes. unfold parseChapters. rewrite !bind_reading.
  destruct (negb (Js.truthy chapters) || negb (Js.isArray h chapters)
            || (length (Js.elems h chapters) =? 0)%nat) eqn:E.
  - exists (VRef (length h)), [Arr []]. unfold alloc.
    assert (length (Js.elems h chapters) = 0) as ->.
    { destruct chapters as [| | | | |l]; try done. simpl in *.
      destruct (h !! l) as [[ps|es]|]; try done. simpl in E.
      by apply Nat.eqb_eq in E. }
    split_and!; [done| |apply valid_alloc|done].
    apply ordered_alloc; [done|]. by intros [|?] ?.
  - destruct (mapM_parseChapter_well _ Hes h Ho) as (vs & h2 & Hrun & Ho2 & Hlen & Hvs).
    exists (VRef (length (h ++ h2))), (h2 ++ [Arr vs]).
    unfold bind. rewrite Hrun. unfold alloc. rewrite app_assoc.
    split_and!; [done| |apply valid_alloc|].
    + by apply ordered_alloc.
    + rewrite length_app. simpl. lia.
Qed.

Lemma parseDocumentData_total (e : env) (data : val) (h : heap) :
  let story := Js.or (Js.get_opt h data "story") data in
  let chapters := Js.elems h (Js.get_opt h story "chapters") in
  ordered h -> valid h data -> nullish data = false ->
  Forall (fun c => nullish c = false) chapters ->
  length h + length chapters + 6 < stack e ->
  exists r h', parseDocumentData e data VNull h = Ok (r, h').
Proof.
  intros story chapters Ho Hv Hd Hch Hstack.
  unfold parseDocumentData.
  unfold parseTranscriptionData at 1. cbn [Js.truthy negb]. rewrite bind_alloc.
  assert (ordered (h ++ [Obj []])) as Ho1
    by (apply ordered_alloc; [done|]; by intros k v).
  rewrite (bind_lift_Ok (fun h0 => Js.get h0 data "story") _ _ _
             (get_not_nullish _ data _ Hd)).
  cbv zeta. rewrite (get_opt_extend h _ data) by done. fold story.
  assert (valid h story) as Hstory
    by (apply valid_or; [by apply valid_get_opt|done]).
  rewrite !bind_reading.
  rewrite !(get_opt_extend h _ story) by done.
  rewrite bind_alloc.
  set (h2 := (h ++ [Obj []]) ++ _).
  assert (h `prefix_of` h2) as Hp2
    by (unfold h2; by repeat apply prefix_app_r).
  assert (ordered h2) as Ho2.
  { apply ordered_alloc; [done|]. apply valid_props. simpl.
    repeat constructor; try apply valid_or; try done;
      try (apply valid_extend; by apply valid_get_opt).
    by destruct (storyId e). }
  pose proof (valid_prefix _ _ _ Hp2 Hstory) as Hstory2.
  rewrite bind_reading.
  destruct (formatDuration_Ok (stack e) h2 (Js.get_opt h2 story "duration"))
    as [formatted Hf]; [lia|].
  rewrite (bind_lift_Ok
             (fun h0 => formatDuration (stack e) h0 (Js.get_opt h2 story "duration"))
             _ _ _ Hf).
  rewrite !bind_reading, bind_alloc.
  set (h3 := h2 ++ _).
  assert (h `prefix_of` h3) as Hp3
    by (unfold h3; by repeat apply prefix_app_r).
  assert (ordered h3) as Ho3.
  { apply ordered_alloc; [done|]. apply valid_props. simpl.
    repeat constructor; try apply valid_or; try done;
      try (by apply valid_get_opt).
    by eapply formatDuration_primitive. }
  rewrite bind_reading.
  rewrite (get_opt_prefix h h3 story "chapters") by done.
  destruct (parseChapters_well (Js.get_opt h story "chapters") h3 Ho3)
    as (chv & hc & Hrun & Ho4 & Hchv & Hlen).
  { rewrite (elems_prefix h h3); [exact Hch|done|by apply valid_get_opt]. }
  rewrite (elems_prefix h h3) in Hlen; [|done|by apply valid_get_opt].
  fold chapters in Hlen.
  unfold bind at 1. rewrite Hrun. rewrite bind_alloc.
  set (h5 := (h3 ++ hc) ++ _).
  assert (length h3 = length h + 3) as Hl3.
  { unfold h3, h2. rewrite !length_app. simpl. lia. }
  assert (ordered h5) as Ho5.
  { apply ordered_alloc; [done|]. apply valid_props. simpl.
    repeat constructor; [done|]. unfold valid. rewrite length_app. lia. }
  rewrite bind_alloc.
  set (h6 := h5 ++ _).
  assert (ordered h6) as Ho6.
  { apply ordered_alloc; [done|]. apply valid_props. simpl.
    do 3 (constructor; [exact I|]). constructor; [|constructor].
    apply valid_or; [|exact I]. destruct (manifestVersion e); exact I. }
  rewrite bind_alloc.
  set (h7 := h6 ++ _).
  assert (length h5 = length h + length chapters + 5) as Hl5.
  { unfold h5. rewrite !length_app. simpl. lia. }
  assert (length h6 = length h + length chapters + 6) as Hl6.
  { unfold h6. rewrite length_app. simpl. lia. }
  assert (ordered h7) as Ho7.
  { apply ordered_alloc; [done|]. apply valid_props. simpl.
    assert (length h2 = length h + 2) as Hl2
      by (unfold h2; rewrite !length_app; simpl; lia).
    do 4 (constructor; [unfold valid; rewrite ?length_app; simpl; lia|]).
    constructor. }
  cbv beta iota.
  destruct (cleanObject_total (stack e) (length h6) h7 Ho7) as [h' Hrun'];
    [lia|].
  rewrite Hrun'. eauto.
Qed.

End Stores.

(** ** Pruned records and arrays *)

Section PrunedRecords.
Import Content.

Lemma bind_Ok {A B : Type} (c : M A) (k : A -> M B) (h : heap) (r : B * heap) :
  bind c k h = Ok r -> exists a h1, c h = Ok (a, h1) /\ k a h1 = Ok r.
Proof.
  unfold bind. destruct (c h) as [[a h1]|]; [|done]. intros H. by exists a, h1.
Qed.

Lemma alloc_Ok (o : hobj) (h : heap) (v : val) (h' : heap) :
  alloc o h = Ok (v, h') -> v = VRef (length h) /\ h' = h ++ [o].
Proof. by intros [= <- <-]. Qed.

Lemma lookup_alloc (h : heap) (o : hobj) : (h ++ [o]) !! length h = Some o.
Proof. by apply list_lookup_middle. Qed.

Lemma lookup_alloc' (h h2 : heap) (o : hobj) :
  (h ++ o :: h2) !! length h = Some o.
Proof. by apply list_lookup_middle. Qed.

Lemma pruned_upto_at_path (d : nat) (h : heap) (l : loc) (path : list string)
    (v : val) :
  pruned_upto d h l -> path <> [] -> at_path h (VRef l) path v ->
  nullish v = false /\ ~ empty_obj h v.
Proof.
  revert l path. induction d as [|d IH]; intros l path; [done|].
  intros (ps & Hl & Hps) Hne Hpath.
  inversion Hpath as [|l' ps' k v1 rest w Hl' Hk Hrest]; subst; [done|].
  rewrite Hl in Hl'. injection Hl' as <-.
  destruct (Hps k v1 Hk) as [Hn Hc].
  inversion Hrest as [|c psc k2 v2 rest' w' Hcc Hk2 Hrest']; subst.
  - split; [done|]. intros (c & -> & Hcc).
    by destruct (Hc c [] eq_refl Hcc).
  - destruct (Hc c psc eq_refl Hcc) as [_ Hp]. by apply (IH c (k2 :: rest')).
Qed.

(** C4. The recursive prune step is idempotent: a second application
    to the pruned record returns it unchanged.  The step terminates on
    every store in allocation order, given stack for the nesting; and
    the record [{a: null, b: {c: null}, d: 0, e: ""}] prunes to exactly
    [{d: 0, e: ""}]. *)
Theorem cleanObject_twice :
  (forall (stack : nat) (obj : loc) (h h' : heap),
     cleanObject stack obj h = Ok h' -> cleanObject stack obj h' = Ok h')
  /\ (forall (stack : nat) (obj : loc) (h : heap),
        ordered h -> obj < stack -> exists h', cleanObject stack obj h = Ok h')
  /\ (exists h0 h1 : heap,
        load (JObj [("a", JNull); ("b", JObj [("c", JNull)]);
                    ("d", JNum 0); ("e", JStr "")]) [] = Ok (VRef 1, h0)
        /\ cleanObject 2 1 h0 = Ok h1
        /\ h1 !! 1 = Some (Obj [("d", VNum (Fin 0)); ("e", VStr "")])).
Proof.
  split_and!.
  - apply cleanObject_idempotent.
  - intros stack obj h. apply cleanObject_total.
  - do 2 eexists. split_and!; reflexivity.
Qed.

Lemma cleanObject_twice_witness :
  let h := [Obj [("c", VNull)];
            Obj [("a", VNull); ("b", VRef 0); ("d", VNum (Fin 0)); ("e", VStr "")]] in
  let h' := [Obj []; Obj [("d", VNum (Fin 0)); ("e", VStr "")]] in
  cleanObject 2 1 h = Ok h' /\ cleanObject 2 1 h' = Ok h'.
Proof.
  split; [reflexivity|].
  apply (proj1 cleanObject_twice 2 1
           [Obj [("c", VNull)];
            Obj [("a", VNull); ("b", VRef 0); ("d", VNum (Fin 0)); ("e", VStr "")]]).
  reflexivity.
Defined.

(** C10, as the code has it.  [cleanObject] never removes an array and
    never looks inside one: a key of the record whose value is an array
    is still there after pruning, bound to the same array, which holds
    the same elements, an empty array included; and no object is changed
    unless the record reaches it through properties of plain objects
    alone.  (An object inside an array that the record also reaches
    through such properties is pruned, being the same object.) *)
Theorem cleanObject_keeps_arrays (stack : nat) (obj : loc) (h h' : heap)
    (key : string) (a : loc) (es : list val) :
  cleanObject stack obj h = Ok h' ->
  Js.lookup_prop key (Js.props h (VRef obj)) = Some (VRef a) ->
  h !! a = Some (Arr es) ->
  Js.lookup_prop key (Js.props h' (VRef obj)) = Some (VRef a)
  /\ h' !! a = Some (Arr es)
  /\ forall x, ~ obj_reach h obj x -> h' !! x = h !! x.
Proof.
  intros Hrun Hk Ha. split_and!.
  - eapply cleanObject_keeps; [done..|].
    intros [?|(c & [= <-] & ps & Hc)]; [done|congruence].
  - by eapply cleanObject_array.
  - by eapply cleanObject_frame.
Qed.

Lemma cleanObject_keeps_arrays_witness :
  let h := [Obj [("id", VNull)]; Arr [VRef 0]; Arr [];
            Obj [("chapters", VRef 1); ("tags", VRef 2); ("slug", VNull)]] in
  exists h',
    cleanObject 1 3 h = Ok h'
    /\ Js.lookup_prop "chapters" (Js.props h' (VRef 3)) = Some (VRef 1)
    /\ h' !! 1 = Some (Arr [VRef 0])
    /\ h' !! 0 = Some (Obj [("id", VNull)]).
Proof.
  intros h. exists [Obj [("id", VNull)]; Arr [VRef 0]; Arr [];
                   Obj [("chapters", VRef 1); ("tags", VRef 2)]].
  assert (cleanObject 1 3 h
          = Ok [Obj [("id", VNull)]; Arr [VRef 0]; Arr [];
                Obj [("chapters", VRef 1); ("tags", VRef 2)]]) as Hrun
    by reflexivity.
  destruct (cleanObject_keeps_arrays 1 3 h _ "chapters" 1 [VRef 0] Hrun
              eq_refl eq_refl) as (Hk & Ha & _).
  split_and!; [exact Hrun | exact Hk | exact Ha | reflexivity].
Defined.

(** The last clause of C10, as stated, fails when an element of the
    array is also held by a property of the record: the element
    [{n: null}] of the array under [list] loses its field. *)
Lemma cleanObject_shared_element :
  let h := [Obj [("n", VNull)]; Arr [VRef 0];
            Obj [("list", VRef 1); ("first", VRef 0)]] in
  exists h',
    cleanObject 2 2 h = Ok h'
    /\ Js.lookup_prop "list" (Js.props h (VRef 2)) = Some (VRef 1)
    /\ h !! 1 = Some (Arr [VRef 0])
    /\ h !! 0 = Some (Obj [("n", VNull)])
    /\ h' !! 0 = Some (Obj [])
    /\ h' !! 0 <> h !! 0.
Proof.
  intros h. exists [Obj []; Arr [VRef 0]; Obj [("list", VRef 1)]].
  split_and!; try reflexivity. discriminate.
Qed.

Lemma parseDocumentData_cleaned (e : env) (data transcriptionData : val)
    (h h' : heap) (r : val) :
  parseDocumentData e data transcriptionData h = Ok (r, h') ->
  exists (l : loc) (h0 : heap),
    r = VRef l /\ is_obj h0 l /\ cleanObject (stack e) l h0 = Ok h'.
Proof.
  unfold parseDocumentData. intros H.
  repeat (apply bind_Ok in H as (? & ? & ? & H); cbv zeta in H).
  match goal with
  | Ha : alloc _ _ = Ok (?v, ?hN) |- _ =>
      match type of H with
      | context [cleanObject] => apply alloc_Ok in Ha as [-> ->]
      end
  end.
  match type of H with
  | context [cleanObject (stack e) ?l ?hN] =>
      destruct (cleanObject (stack e) l hN) as [hc|] eqn:Hrun; [|done];
      injection H as <- <-; exists l, hN
  end.
  split_and!; [done| |done]. eexists. apply lookup_alloc.
Qed.

Lemma parseDocumentData_record (e : env) (data transcriptionData : val)
    (h h' : heap) (r : val) :
  parseDocumentData e data transcriptionData h = Ok (r, h') ->
  exists l, r = VRef l /\ is_obj h' l.
Proof.
  intros H. apply parseDocumentData_cleaned in H as (l & h0 & -> & Hobj & Hrun).
  exists l. split; [done|]. apply cleanObject_prunes in Hrun as [Hs _].
  by apply (shrinks_is_obj h0 h' l Hs).
Qed.

(** C3, as the code has it.  Every record [parseDocumentData] returns
    is pruned along the properties of plain objects: whatever is reached
    from the record through property names alone is neither [null] nor
    [undefined] nor an empty object.  Pruning stops at arrays, so the
    entries of [content.chapters] keep their [null] fields.  The prune
    step never deletes a property that holds a string, a number or a
    boolean, so empty strings and [0] stay. *)
Theorem parseDocumentData_pruned (e : env) (data transcriptionData : val)
    (h h' : heap) (r : val) :
  parseDocumentData e data transcriptionData h = Ok (r, h') ->
  (exists l, r = VRef l /\ is_obj h' l)
  /\ (forall (path : list string) (v : val),
        path <> [] -> at_path h' r path v ->
        v <> VNull /\ v <> VUndef /\ ~ empty_obj h' v)
  /\ (forall (stack : nat) (obj x : loc) (h1 h2 : heap)
             (ps ps' : list (string * val)) (k : string) (v : val),
        cleanObject stack obj h1 = Ok h2 ->
        h1 !! x = Some (Obj ps) -> h2 !! x = Some (Obj ps') ->
        Js.lookup_prop k ps = Some v ->
        Js.typeof v <> "object" -> Js.typeof v <> "undefined" ->
        Js.lookup_prop k ps' = Some v).
Proof.
  intros H. pose proof (parseDocumentData_record _ _ _ _ _ _ H) as Hrec.
  apply parseDocumentData_cleaned in H as (l & h0 & -> & Hobj & Hrun).
  pose proof (cleanObject_pruned _ _ _ _ Hobj Hrun) as Hp.
  split_and!.
  - exact Hrec.
  - intros path v Hne Hpath.
    destruct (pruned_upto_at_path _ _ _ _ _ Hp Hne Hpath) as [Hn He].
    split_and!; [by intros -> | by intros -> | done].
  - clear. intros stack obj x h1 h2 ps ps' k v Hrun H1 H2 Hk Ho Hu.
    apply cleanObject_prunes in Hrun as [Hs _]. generalize (Hs x).
    unfold cell_shrinks. rewrite H1, H2. intros [_ B].
    destruct (B k v Hk) as [?|[Hn|(c & -> & _)]]; [done| |done].
    by destruct v.
Qed.

Lemma parseDocumentData_pruned_witness :
  exists (r : val) (h' : heap),
    parseDocumentData Sample.env (fst Sample.document_store) VNull
      (snd Sample.document_store) = Ok (r, h')
    /\ forall (path : list string) (v : val),
         path <> [] -> at_path h' r path v ->
         v <> VNull /\ v <> VUndef /\ ~ empty_obj h' v.
Proof.
  destruct (parseDocumentData Sample.env (fst Sample.document_store) VNull
              (snd Sample.document_store)) as [[r h']|] eqn:E.
  - exists r, h'. split; [reflexivity|].
    exact (proj1 (proj2 (parseDocumentData_pruned _ _ _ _ _ _ E))).
  - vm_compute in E. discriminate.
Defined.

(** C3, as stated, asks for no [null] inside array elements either.  The record of the end-to-end scenario has one: the chapter
    entry built for [{timestamp: 10, title: "Intro"}] has [id: null]. *)
Lemma parseDocumentData_chapter_id_null :
  exists (r : val) (h' : heap) (chapters : val),
    parseDocumentData Sample.env (fst Sample.document_store) VNull
      (snd Sample.document_store) = Ok (r, h')
    /\ at_path h' r ["content"; "chapters"] chapters
    /\ Js.isArray h' chapters = true
    /\ Js.get h' (Js.index h' chapters 0) "id" = Ok VNull.
Proof.
  eexists _, _, _. split; [vm_compute; reflexivity|]. split_and!.
  - eapply at_prop; [reflexivity | reflexivity |].
    eapply at_prop; [reflexivity | reflexivity |]. apply at_here.
  - reflexivity.
  - reflexivity.
Qed.

(** The sharing of [cleanObject_shared_element] arises in the extension:
    for a transcription payload whose first [transcriptions] entry is
    the object [{n: null}], the record holds that object both inside
    the array [transcriptionMetadata] and under [transcriptionStatus],
    and pruning the record empties it. *)
Lemma parseDocumentData_shared_status :
  exists (td r : val) (h h' : heap),
    fetchData (Resolved true (Some Sample.status_object))
      (snd Sample.document_store) = (td, h)
    /\ extractFromAPI Sample.env (Resolved true (Some Sample.document))
         (Resolved true (Some Sample.status_object)) [] = (r, h')
    /\ Js.index h (Js.get_opt h td "transcriptions") 0 = VRef 4
    /\ h !! 4 = Some (Obj [("n", VNull)])
    /\ exists metadata,
         at_path h' r ["content"; "transcription"; "transcriptionMetadata"]
           metadata
         /\ Js.index h' metadata 0 = VRef 4
         /\ h' !! 4 = Some (Obj []).
Proof.
  eexists _, _, _, _.
  split; [vm_compute; reflexivity|]. split; [vm_compute; reflexivity|].
  split_and!; try reflexivity. eexists. split_and!.
  - eapply at_prop; [reflexivity | reflexivity |].
    eapply at_prop; [reflexivity | reflexivity |].
    eapply at_prop; [reflexivity | reflexivity |]. apply at_here.
  - reflexivity.
  - reflexivity.
Qed.

End PrunedRecords.

(** ** The transcript *)

Section Transcript.
Import Content.

Lemma is_word_extend (h h2 : heap) (v : val) (w : word) :
  is_word h v w -> is_word (h ++ h2) v w.
Proof.
  intros (l & ps & -> & Hl & Ht & Hh). exists l, ps.
  split_and!; try done. by apply lookup_extend.
Qed.

Lemma visible_word (h : heap) (v : val) (w : word) :
  is_word h v w ->
  visible h v = Ok (negb (w_hidden w) && negb (Str.is_empty (w_text w))).
Proof.
  intros (l & ps & -> & Hl & Ht & Hh). unfold visible. simpl.
  by rewrite Hl, Ht, Hh.
Qed.

Lemma trimmed_word (h : heap) (v : val) (w : word) :
  is_word h v w -> trimmed h v = Ok (Str.trim (w_text w)).
Proof.
  intros (l & ps & -> & Hl & Ht & Hh). unfold trimmed. simpl.
  by rewrite Hl, Ht.
Qed.

Lemma filterR_words (h : heap) (es : list val) (ws : list word) :
  Forall2 (is_word h) es ws ->
  exists es',
    filterR (visible h) es = Ok es'
    /\ Forall2 (is_word h) es'
         (List.filter
            (fun w => negb (w_hidden w) && negb (Str.is_empty (w_text w))) ws).
Proof.
  induction 1 as [|v w es ws Hw _ (es' & IH1 & IH2)]; simpl.
  - by exists [].
  - rewrite (visible_word _ _ _ Hw), IH1.
    destruct (negb (w_hidden w) && negb (Str.is_empty (w_text w))).
    + exists (v :: es'). split; [done|]. by constructor.
    + by exists es'.
Qed.

Lemma mapR_words (h : heap) (es : list val) (ws : list word) :
  Forall2 (is_word h) es ws ->
  mapR (trimmed h) es = Ok (map (fun w => Str.trim (w_text w)) ws).
Proof.
  induction 1 as [|v w es ws Hw _ IH]; simpl; [done|].
  by rewrite (trimmed_word _ _ _ Hw), IH.
Qed.

Lemma trim_empty (s : string) :
  Str.is_empty s = true -> Str.is_empty (Str.trim s) = true.
Proof. by destruct s. Qed.

Lemma filter_trimmed (ws : list word) :
  List.filter (fun t => negb (Str.is_empty t))
    (map (fun w => Str.trim (w_text w))
       (List.filter
          (fun w => negb (w_hidden w) && negb (Str.is_empty (w_text w))) ws))
  = map (fun w => Str.trim (w_text w))
      (List.filter
         (fun w => negb (w_hidden w)
                   && negb (Str.is_empty (Str.trim (w_text w)))) ws).
Proof.
  induction ws as [|w ws IH]; simpl; [done|].
  destruct (w_hidden w); simpl; [done|].
  destruct (Str.is_empty (w_text w)) eqn:E; simpl.
  - by rewrite (trim_empty _ E).
  - destruct (Str.is_empty (Str.trim (w_text w))); simpl; by rewrite IH.
Qed.

Lemma formatTranscriptFromWords_words (h : heap) (a : loc) (es : list val)
    (ws : list word) :
  h !! a = Some (Arr es) -> Forall2 (is_word h) es ws ->
  formatTranscriptFromWords h (VRef a) = Ok (spec_transcript ws).
Proof.
  intros Ha Hws. unfold formatTranscriptFromWords. simpl. rewrite Ha. simpl.
  destruct (filterR_words _ _ _ Hws) as (es' & -> & Hes').
  rewrite (mapR_words _ _ _ Hes'). unfold spec_transcript.
  by rewrite filter_trimmed.
Qed.

Lemma calculateTranscriptDuration_words (h : heap) (a : loc) (es : list val)
    (ws : list word) :
  h !! a = Some (Arr es) -> Forall2 (is_word h) es ws ->
  exists d, calculateTranscriptDuration h (VRef a) = Ok d.
Proof.
  intros Ha Hws. unfold calculateTranscriptDuration. simpl. rewrite Ha. simpl.
  destruct (length es =? 0)%nat eqn:E; [eauto|].
  unfold Js.index. simpl. rewrite Ha.
  destruct (es !! (length es - 1)) as [v|] eqn:Hlast.
  - destruct (Forall2_lookup_l _ _ _ _ _ Hws Hlast) as (w & _ & Hw).
    destruct Hw as (l & ps & -> & Hl & _). simpl. eauto.
  - apply lookup_ge_None in Hlast. apply Nat.eqb_neq in E. lia.
Qed.

Lemma transcription_metadata_Ok (td : val) (h : heap) :
  exists md h2,
    transcription_metadata td h = Ok (md, h ++ h2)
    /\ Js.lookup_prop "transcript" md = None
    /\ Js.lookup_prop "transcriptWordCount" md = None.
Proof.
  unfold transcription_metadata, bind, reading, ret, alloc.
  repeat match goal with
         | |- context [if ?b then _ else _] => destruct b
         end.
  - eexists _, []. rewrite app_nil_r. by split_and!.
  - eexists _, [_]. by split_and!.
  - eexists _, []. rewrite app_nil_r. by split_and!.
  - eexists _, []. rewrite app_nil_r. by split_and!.
Qed.

Lemma lookup_prop_app (k : string) (ps qs : list (string * val)) :
  Js.lookup_prop k (ps ++ qs)
  = match Js.lookup_prop k ps with
    | Some v => Some v
    | None => Js.lookup_prop k qs
    end.
Proof.
  induction ps as [|[k' v'] ps IH]; simpl; [done|].
  by destruct (String.eqb k' k).
Qed.

Lemma resolve_words_extend (h h2 : heap) (td : val) :
  ordered h -> valid h td ->
  resolve_words (h ++ h2) td = resolve_words h td.
Proof.
  intros Ho Hv. unfold resolve_words.
  rewrite !(get_opt_extend h h2 td) by done.
  pose proof (valid_get_opt h td "words" Ho) as Hw.
  pose proof (valid_get_opt h td "transcriptions" Ho) as Ht.
  rewrite (isArray_extend h h2 _ Hw).
  rewrite !(isArray_extend h h2 _ Ht), !(elems_extend h h2 _ Ht).
  rewrite !(index_extend h h2 _ _ Ht).
  pose proof (valid_index h (Js.get_opt h td "transcriptions") 1 Ho) as Hd.
  rewrite (isArray_extend h h2 _ Hd), !(elems_extend h h2 _ Hd).
  rewrite (index_extend h h2 _ _ Hd).
  by rewrite (get_extend h h2 _ _ (valid_index h _ 0 Ho)).
Qed.

(** C2, as the code has it.  For the word array that the normaliser
    resolves, at either location, the transcript is the texts of the
    words that are neither hidden nor empty or white space, trimmed and
    joined with single spaces; the reported [transcriptWordCount] is
    the length of the whole word array, hidden and blank words
    included. *)
Theorem transcript_of_words (h : heap) (transcriptionData : val) (a : loc)
    (es : list val) (ws : list word) :
  ordered h -> valid h transcriptionData ->
  Js.truthy transcriptionData = true ->
  resolve_words h transcriptionData = Ok (VRef a) ->
  h !! a = Some (Arr es) ->
  Forall2 (is_word h) es ws ->
  formatTranscriptFromWords h (VRef a) = Ok (spec_transcript ws)
  /\ exists (r : loc) (h' : heap),
       parseTranscriptionData transcriptionData h = Ok (VRef r, h')
       /\ Js.get h' (VRef r) "transcript" = Ok (VStr (spec_transcript ws))
       /\ Js.get h' (VRef r) "transcriptWordCount"
          = Ok (VNum (Num.of_Z (Z.of_nat (length ws)))).
Proof.
  intros Ho Hv Htruthy Hwords Ha Hws.
  split; [by eapply formatTranscriptFromWords_words|].
  destruct (transcription_metadata_Ok transcriptionData h)
    as (md & h2 & Hmd & Hmd1 & Hmd2).
  pose proof (lookup_extend h h2 _ _ Ha) as Ha2.
  assert (Forall2 (is_word (h ++ h2)) es ws) as Hws2.
  { eapply Forall2_impl; [exact Hws|]. intros. by apply is_word_extend. }
  destruct (calculateTranscriptDuration_words _ _ _ _ Ha2 Hws2) as [d Hd].
  assert (resolve_words (h ++ h2) transcriptionData = Ok (VRef a)) as Hres
    by (by rewrite resolve_words_extend).
  assert (Js.isArray (h ++ h2) (VRef a) = true) as Hisarr
    by (simpl; by rewrite Ha2).
  assert (length (Js.elems (h ++ h2) (VRef a)) = length ws) as Hcount.
  { simpl. rewrite Ha2. by eapply Forall2_length. }
  pose proof (formatTranscriptFromWords_words _ _ _ _ Ha2 Hws2) as Hf.
  exists (length (h ++ h2)). eexists.
  unfold parseTranscriptionData. rewrite Htruthy. cbn [negb].
  unfold bind at 1. rewrite Hmd.
  rewrite (bind_lift_Ok (fun h0 => resolve_words h0 transcriptionData)
             _ _ _ Hres).
  rewrite bind_reading, Hisarr. cbn [Js.truthy andb].
  rewrite (bind_lift_Ok (fun h0 => formatTranscriptFromWords h0 (VRef a))
             _ _ _ Hf).
  rewrite bind_reading, Hcount.
  rewrite (bind_lift_Ok (fun h0 => calculateTranscriptDuration h0 (VRef a))
             _ _ _ Hd).
  unfold alloc. split_and!.
  - reflexivity.
  - simpl. rewrite lookup_alloc. by rewrite lookup_prop_app, Hmd1.
  - simpl. rewrite lookup_alloc. by rewrite lookup_prop_app, Hmd2.
Qed.

Lemma transcript_of_words_witness :
  (exists (r : loc) (h' : heap),
     parseTranscriptionData (fst Sample.transcription_store)
       (snd Sample.transcription_store) = Ok (VRef r, h')
     /\ Js.get h' (VRef r) "transcript" = Ok (VStr "Hello world")
     /\ Js.get h' (VRef r) "transcriptWordCount" = Ok (VNum (Fin 3)))
  /\ (exists (r : loc) (h' : heap),
        parseTranscriptionData (fst Sample.nested_store)
          (snd Sample.nested_store) = Ok (VRef r, h')
        /\ Js.get h' (VRef r) "transcript" = Ok (VStr "So it begins")
        /\ Js.get h' (VRef r) "transcriptWordCount" = Ok (VNum (Fin 4))).
Proof.
  split.
  - destruct (transcript_of_words (snd Sample.transcription_store)
                (fst Sample.transcription_store) 3 [VRef 0; VRef 1; VRef 2]
                [ {| w_text := "Hello"; w_hidden := false |};
                  {| w_text := "secret"; w_hidden := true |};
                  {| w_text := "world"; w_hidden := false |} ])
      as [_ H].
    + by apply orderedb_ordered.
    + simpl. lia.
    + reflexivity.
    + reflexivity.
    + reflexivity.
    + repeat constructor; (eexists _, _; split_and!; reflexivity).
    + exact H.
  - destruct (transcript_of_words (snd Sample.nested_store)
                (fst Sample.nested_store) 4
                [VRef 0; VRef 1; VRef 2; VRef 3]
                [ {| w_text := " So"; w_hidden := false |};
                  {| w_text := "it "; w_hidden := false |};
                  {| w_text := "  "; w_hidden := false |};
                  {| w_text := "begins"; w_hidden := false |} ])
      as [_ H].
    + by apply orderedb_ordered.
    + simpl. lia.
    + reflexivity.
    + reflexivity.
    + reflexivity.
    + repeat constructor; (eexists _, _; split_and!; reflexivity).
    + exact H.
Defined.

(** C2, as stated, gives a word count of 2 for the three-word example;
    the code reports the length of the whole array, 3. *)
Lemma transcript_word_count_unfiltered :
  exists (r : val) (h' : heap),
    parseTranscriptionData (fst Sample.transcription_store)
      (snd Sample.transcription_store) = Ok (r, h')
    /\ Js.get h' r "transcript" = Ok (VStr "Hello world")
    /\ Js.get h' r "transcriptWordCount" = Ok (VNum (Fin 3))
    /\ Js.get h' r "transcriptWordCount" <> Ok (VNum (Fin 2)).
Proof.
  eexists _, _. split; [vm_compute; reflexivity|].
  split_and!; try reflexivity. discriminate.
Qed.

(** The order in which the word array is looked for: the top-level
    [words] when it is an array; otherwise [transcriptions[1][0].words]
    when [transcriptions] is an array of at least two entries whose
    second entry is a non-empty array; otherwise nothing. *)
Lemma resolve_words_order (h : heap) (transcriptionData : val) :
  let words := Js.get_opt h transcriptionData "words" in
  let transcriptions := Js.get_opt h transcriptionData "transcriptions" in
  let details := Js.index h transcriptions 1 in
  (Js.isArray h words = true -> resolve_words h transcriptionData = Ok words)
  /\ (Js.isArray h words = false ->
      Js.isArray h transcriptions = true ->
      1 < length (Js.elems h transcriptions) ->
      Js.isArray h details = true -> 0 < length (Js.elems h details) ->
      resolve_words h transcriptionData = Js.get h (Js.index h details 0) "words")
  /\ (Js.isArray h words = false ->
      Js.isArray h transcriptions
        && (1 <? length (Js.elems h transcriptions))%nat
        && Js.isArray h details
        && (0 <? length (Js.elems h details))%nat = false ->
      resolve_words h transcriptionData = Ok VNull).
Proof.
  intros words transcriptions details. unfold resolve_words.
  fold words transcriptions details. split_and!.
  - intros Ha. rewrite Ha.
    assert (Js.truthy words = true) as -> by (by destruct words). done.
  - intros Hw Ht Hlen Hd Hdlen. rewrite Hw, Ht, Hd, andb_false_r.
    assert (Js.truthy transcriptions = true) as ->
      by (by destruct transcriptions).
    apply Nat.ltb_lt in Hlen, Hdlen. by rewrite Hlen, Hdlen.
  - intros Hw Hno. rewrite Hw, andb_false_r.
    destruct (Js.truthy transcriptions); simpl; [|done].
    destruct (Js.isArray h transcriptions); simpl in *; [|done].
    destruct (1 <? length (Js.elems h transcriptions))%nat; simpl in *; [|done].
    by rewrite Hno.
Qed.

(** C5 at the input where the code departs from it.  For the payload
    [{"transcriptions": ["completed", [null]]}] neither location holds a
    word array, and C5 has the normaliser return a result without
    transcript fields and raise no error.  The code reads [.words] of
    the [null] segment: [parseTranscriptionData] throws a TypeError, and
    the structured-source path, which catches it, gives [null]. *)
Theorem parseTranscriptionData_null_segment :
  let td := fst (Sample.run Sample.null_segment) in
  let h := snd (Sample.run Sample.null_segment) in
  Js.isArray h (Js.get_opt h td "words") = false
  /\ Js.index h (Js.index h (Js.get_opt h td "transcriptions") 1) 0 = VNull
  /\ resolve_words h td = Throw TypeError
  /\ parseTranscriptionData td h = Throw TypeError
  /\ fst (extractFromAPI Sample.env (Resolved true (Some Sample.document))
            (Resolved true (Some Sample.null_segment)) []) = VNull.
Proof. split_and!; reflexivity. Qed.

End Transcript.

(** ** The markdown list of chapters *)

Section Markdown.
Import Sidebar.





Lemma formatChaptersAsMarkdown_none (stack : nat) (h : heap) (chapters : val) :
  Js.elems h chapters = [] ->
  formatChaptersAsMarkdown stack h chapters = Ok "".
Proof.
  intros He. unfold formatChaptersAsMarkdown. rewrite He. simpl.
  by rewrite !orb_true_r.
Qed.

(** Entries without a formatted timestamp are listed under their
    [timestamp] with leading zeros, and under [00:00] without one. *)
Lemma formatChaptersAsMarkdown_unformatted :
  let h := [Obj [("timestamp", VNum (Fin 125)); ("title", VStr "Demo");
                 ("description", VStr "Start")];
            Obj [("title", VStr "")];
            Arr [VRef 0; VRef 1]] in
  formatChaptersAsMarkdown 1 h (VRef 2)
  = Ok ("- 02:05 Demo - Start" ++ newline ++ "- 00:00 Untitled")%string.
Proof. reflexivity. Qed.

Lemma elems_alloc_obj (h : heap) (ps : list (string * val)) (v : val) :
  Js.elems h v = [] -> Js.elems (h ++ [Obj ps]) v = [].
Proof.
  destruct v as [| | | | |x]; try done. simpl.
  destruct (decide (x < length h)) as [Hlt|Hge].
  - by rewrite lookup_app_l.
  - rewrite lookup_app_r by lia.
    by destruct (x - length h) as [|n].
Qed.




End Markdown.

(** ** The two fetches *)

Section Fetching.
Import Content.

Lemma fetchData_failed (f : fetched) (h : heap) :
  fetch_failed f -> fetchData f h = (VNull, h).
Proof. by destruct f as [|[] []]. Qed.

(** C6, as the code has it.  When the document fetch fails (a status
    outside 2xx, a network error or a body that is not JSON) the
    structured-source path returns [null], whatever the transcription
    fetch gives.  When the document fetch gives a truthy body and only
    the transcription fetch fails, extraction goes on with a [null]
    transcription: the result is what [parseDocumentData] makes of the
    document and [null], a record whenever that normalisation
    completes; and it completes when no entry of the document's chapter
    list is [null] and there is stack for the cells of the store. *)
Theorem extractFromAPI_asymmetric (e : env) (h : heap) :
  (forall document transcription : fetched,
     fetch_failed document ->
     extractFromAPI e document transcription h = (VNull, h))
  /\ (forall (id : string) (body : Json) (transcription : fetched)
             (data : val) (h1 : heap),
        storyId e = Some id -> id <> EmptyString ->
        fetch_failed transcription ->
        load body h = Ok (data, h1) -> Js.truthy data = true ->
        extractFromAPI e (Resolved true (Some body)) transcription h
        = match parseDocumentData e data VNull h1 with
          | Ok r => r
          | Throw _ => (VNull, h1)
          end
        /\ (forall (r : val) (h' : heap),
              parseDocumentData e data VNull h1 = Ok (r, h') ->
              extractFromAPI e (Resolved true (Some body)) transcription h
              = (r, h')
              /\ exists l, r = VRef l /\ is_obj h' l)
        /\ (ordered h ->
            Forall (fun c => nullish c = false) (raw_chapters h1 data) ->
            length h1 + length (raw_chapters h1 data) + 6 < stack e ->
            exists (l : loc) (h' : heap),
              extractFromAPI e (Resolved true (Some body)) transcription h
              = (VRef l, h')
              /\ is_obj h' l)).
Proof.
  split.
  - intros document transcription Hfail. unfold extractFromAPI.
    destruct (negb (Js.truthy (of_option (storyId e)))); [done|].
    unfold fetchDocumentData. by rewrite (fetchData_failed _ _ Hfail).
  - intros id body transcription data h1 Hid Hne Hfail Hload Hdata.
    assert (extractFromAPI e (Resolved true (Some body)) transcription h
            = match parseDocumentData e data VNull h1 with
              | Ok r => r
              | Throw _ => (VNull, h1)
              end) as Heq.
    { unfold extractFromAPI. rewrite Hid. simpl of_option.
      assert (Js.truthy (VStr id) = true) as -> by (by destruct id).
      simpl negb. cbv iota.
      unfold fetchDocumentData, fetchTranscriptionData.
      simpl fetchData at 1. rewrite Hload, Hdata.
      by rewrite (fetchData_failed _ _ Hfail). }
    assert (forall (r : val) (h' : heap),
              parseDocumentData e data VNull h1 = Ok (r, h') ->
              extractFromAPI e (Resolved true (Some body)) transcription h
              = (r, h')
              /\ exists l, r = VRef l /\ is_obj h' l) as Hrecord.
    { intros r h' Hparse. rewrite Heq, Hparse. split; [done|].
      by eapply parseDocumentData_record. }
    split_and!; [exact Heq | exact Hrecord |].
    intros Ho Hchapters Hstack.
    destruct (load_well body h Ho) as (v & h2 & Hload' & Ho1 & Hv).
    rewrite Hload in Hload'. injection Hload' as -> ->.
    destruct (parseDocumentData_total e v (h ++ h2)) as (r & h' & Hparse);
      try done.
    { by destruct v. }
    destruct (Hrecord r h' Hparse) as (Hrun & l & -> & Hobj).
    by exists l, h'.
Qed.

Lemma extractFromAPI_asymmetric_witness :
  extractFromAPI Sample.env Rejected
    (Resolved true (Some Sample.transcription)) [] = (VNull, [])
  /\ exists (l : loc) (h' : heap),
       extractFromAPI Sample.env (Resolved true (Some Sample.document))
         (Resolved false None) [] = (VRef l, h')
       /\ is_obj h' l.
Proof.
  split.
  - apply (proj1 (extractFromAPI_asymmetric Sample.env [])). exact I.
  - apply (proj2 (extractFromAPI_asymmetric Sample.env []) "abc"
             Sample.document (Resolved false None)
             (fst Sample.document_store) (snd Sample.document_store)
             eq_refl ltac:(discriminate) I eq_refl eq_refl).
    + by apply orderedb_ordered.
    + repeat constructor.
    + simpl. lia.
Defined.

(** C6, as stated, fails when the document fetch succeeds and the
    structured-source path returns [null] all the same: with a body
    that is falsy, here the JSON [null] (the transcription request is
    then not even made), and when normalising the document throws, here
    on a [null] chapter, after the transcription fetch alone has
    failed. *)
Lemma extractFromAPI_no_record :
  extractFromAPI Sample.env (Resolved true (Some JNull))
    (Resolved false None) [] = (VNull, [])
  /\ fst (extractFromAPI Sample.env (Resolved true (Some Sample.null_chapter))
            (Resolved false None) []) = VNull.
Proof. split; reflexivity. Qed.

End Fetching.

(** ** Times as text, and back *)

Section Clock.
Import Content.













Lemma Qred_inject_Z (z : Z) : Qred (inject_Z z) = inject_Z z.
Proof.
  unfold Qred, inject_Z.
  pose proof (Z.ggcd_gcd z 1) as Hg.
  pose proof (Z.ggcd_correct_divisors z 1) as Hd.
  destruct (Z.ggcd z 1) as [g [a b]]. cbn [fst snd] in *.
  rewrite Z.gcd_1_r in Hg. subst g. destruct Hd as [-> Hb].
  assert (b = 1%Z) as -> by lia. f_equal. lia.
Qed.

Lemma toString_int (z : Z) : Num.toString (Num.of_Z z) = Num.Z_to_string z.
Proof.
  unfold Num.toString, Num.of_Z. by rewrite Qred_inject_Z.
Qed.

Lemma floor_div_int (q : Q) (n : Z) (c : positive) :
  (q == inject_Z n)%Q ->
  Num.floor (Num.div (Fin q) c) = Num.of_Z (n / Zpos c).
Proof.
  intros Hq. cbn [Num.floor Num.div]. unfold Num.of_Z. do 2 f_equal.
  rewrite Zdiv_Qdiv. apply Qfloor_comp. by rewrite Hq.
Qed.

Lemma rem_int (q : Q) (n : Z) (c : positive) :
  (q == inject_Z n)%Q -> (0 <= n)%Z ->
  Num.rem (Fin q) c = Num.of_Z (n mod Zpos c).
Proof.
  intros Hq Hn. cbn [Num.rem]. unfold Num.of_Z. f_equal.
  assert (Num.Qtrunc (q / inject_Z (Zpos c)) = (n / Zpos c)%Z) as ->.
  { unfold Num.Qtrunc.
    assert ((Qnum (q / inject_Z (Z.pos c)) <? 0)%Z = false) as ->.
    { apply Z.ltb_ge. unfold Qeq in Hq. destruct q as [a d].
      cbn in *. nia. }
    rewrite Zdiv_Qdiv. apply Qfloor_comp. by rewrite Hq. }
  rewrite <- (Qred_inject_Z (n mod Z.pos c)). apply Qred_complete. rewrite Hq.
  unfold Qminus. rewrite <- inject_Z_opp, <- inject_Z_plus.
  by rewrite Z.mod_eq by lia.
Qed.

Lemma formatTimestamp_int (q : Q) (n : Z) :
  (q == inject_Z n)%Q -> (0 <= n)%Z ->
  formatTimestamp (VNum (Fin q))
  = (Num.Z_to_string (n / 60)%Z ++ ":"
       ++ Str.padStart 2 "0" (Num.Z_to_string (n mod 60)%Z))%string.
Proof.
  intros Hq Hn. unfold formatTimestamp. cbv zeta.
  by rewrite (floor_div_int q n 60 Hq), (rem_int q n 60 Hq Hn), !toString_int.
Qed.








Lemma gt0_int (z : Z) : Num.gt (Num.of_Z z) 0 = (0 <? z)%Z.
Proof.
  unfold Num.gt, Num.of_Z, Qle_bool, inject_Z. cbn [Qnum Qden].
  rewrite Z.mul_1_r. change (0 * 1)%Z with 0%Z.
  destruct (Z.leb_spec z 0), (Z.ltb_spec 0 z); simpl; lia || done.
Qed.

Lemma formatTimestampWithLeadingZeros_int (q : Q) (n : Z) :
  (q == inject_Z n)%Q -> (0 <= n)%Z ->
  let pad (z : Z) := Str.padStart 2 "0" (Num.Z_to_string z) in
  Sidebar.formatTimestampWithLeadingZeros (VNum (Fin q))
  = if (0 <? n / 3600)%Z
    then (pad (n / 3600)%Z ++ ":" ++ pad (n mod 3600 / 60)%Z ++ ":"
            ++ pad (n mod 60)%Z)%string
    else (pad (n mod 3600 / 60)%Z ++ ":" ++ pad (n mod 60)%Z)%string.
Proof.
  intros Hq Hn pad. unfold Sidebar.formatTimestampWithLeadingZeros. cbv zeta.
  assert (Num.floor (Num.div (Num.rem (Fin q) 3600) 60)
          = Num.of_Z (n mod 3600 / 60)) as ->.
  { rewrite (rem_int q n 3600 Hq Hn). by apply floor_div_int. }
  rewrite (floor_div_int q n 3600 Hq), (rem_int q n 60 Hq Hn).
  assert (Num.floor (Num.of_Z (n mod 60)) = Num.of_Z (n mod 60)) as ->.
  { unfold Num.floor, Num.of_Z. by rewrite Qfloor_Z. }
  by rewrite gt0_int, !toString_int.
Qed.



Lemma split_length (s : string) :
  length (Str.split ":" s)
  = S (length (List.filter (fun c => Ascii.eqb c ":") (list_ascii_of_string s))).
Proof.
  induction s as [|c s IH]; [done|].
  cbn [Str.split list_ascii_of_string List.filter].
  destruct (Ascii.eqb c ":"); cbn [length]; [by rewrite IH|].
  destruct (Str.split ":" s) as [|piece pieces]; [done|].
  by rewrite <- IH.
Qed.

(** X3. Only times of two or three parts are converted: a string
    with no colon, such as a bare number of seconds, or with more
    than two colons gives 0. *)
Theorem convertTimeToSeconds_other (s : string) :
  let colons :=
    length (List.filter (fun c => Ascii.eqb c ":") (list_ascii_of_string s)) in
  colons <> 1 -> colons <> 2 ->
  convertTimeToSeconds (VStr s) = Ok (Num.of_Z 0).
Proof.
  intros colons H1 H2. unfold convertTimeToSeconds.
  pose proof (split_length s) as Hlen. fold colons in Hlen.
  rewrite <- (length_map Str.parseInt) in Hlen.
  destruct (map Str.parseInt (Str.split ":" s)) as [|a [|b [|c [|d l]]]];
    try done; cbn [length] in Hlen; lia.
Qed.

Lemma convertTimeToSeconds_other_witness :
  convertTimeToSeconds (VStr "90") = Ok (Num.of_Z 0)
  /\ convertTimeToSeconds (VStr "1:02:03:04") = Ok (Num.of_Z 0).
Proof.
  split.
  - apply (convertTimeToSeconds_other "90"); simpl; lia.
  - apply (convertTimeToSeconds_other "1:02:03:04"); simpl; lia.
Defined.

Lemma pad_digit (m : Z) :
  (0 <= m < 10)%Z ->
  Str.padStart 2 "0" (Num.Z_to_string m) = String "0" (Num.Z_to_string m).
Proof.
  intros Hm.
  assert (m = 0 \/ m = 1 \/ m = 2 \/ m = 3 \/ m = 4 \/ m = 5 \/ m = 6
          \/ m = 7 \/ m = 8 \/ m = 9)%Z as H by lia.
  repeat (destruct H as [->|H]; [reflexivity|]). by subst.
Qed.

Lemma pad_two_digits (m : Z) :
  (10 <= m < 100)%Z ->
  Str.padStart 2 "0" (Num.Z_to_string m) = Num.Z_to_string m.
Proof.
  intros Hm.
  assert (forallb
            (fun k => String.eqb
                        (Str.padStart 2 "0" (Num.Z_to_string (Z.of_nat k)))
                        (Num.Z_to_string (Z.of_nat k)))
            (seq 10 90) = true) as Hall by (vm_compute; reflexivity).
  rewrite forallb_forall in Hall.
  specialize (Hall (Z.to_nat m)). rewrite Z2Nat.id in Hall by lia.
  apply String.eqb_eq, Hall, in_seq. lia.
Qed.

(** X4. Below one hour the two sidebar formats show the same time: the
    format with leading zeros is the preview format, with one zero in
    front when the minutes have a single digit. *)
Theorem formatTimestampWithLeadingZeros_agrees (q : Q) (n : Z) :
  (q == inject_Z n)%Q -> (0 <= n < 3600)%Z ->
  Sidebar.formatTimestampWithLeadingZeros (VNum (Fin q))
  = ((if (n <? 600)%Z then "0" else "")
       ++ Sidebar.formatTimestamp (VNum (Fin q)))%string.
Proof.
  intros Hq Hn.
  rewrite (formatTimestampWithLeadingZeros_int q n Hq) by lia. cbv zeta.
  change (Sidebar.formatTimestamp (VNum (Fin q)))
    with (formatTimestamp (VNum (Fin q))).
  rewrite (formatTimestamp_int q n Hq) by lia.
  rewrite (Z.div_small n 3600), (Z.mod_small n 3600) by lia.
  change (0 <? 0)%Z with false. cbv iota.
  destruct (Z.ltb_spec n 600).
  - rewrite (pad_digit (n / 60)); [done|].
    split; [apply Z.div_pos; lia|]. apply Z.div_lt_upper_bound; lia.
  - rewrite (pad_two_digits (n / 60)); [done|].
    split; [apply Z.div_le_lower_bound; lia|].
    apply Z.div_lt_upper_bound; lia.
Qed.

Lemma formatTimestampWithLeadingZeros_agrees_witness :
  Sidebar.formatTimestampWithLeadingZeros (VNum (Fin 125))
  = ("0" ++ Sidebar.formatTimestamp (VNum (Fin 125)))%string.
Proof.
  apply (formatTimestampWithLeadingZeros_agrees 125 125); [reflexivity | lia].
Defined.

End Clock.

(** ** The range of the duration normaliser *)

Section DurationRange.
Import Content.

Lemma normalize_whole (n : num) : whole_seconds (normalize n).
Proof.
  unfold normalize.
  destruct (negb (Num.truthy n) || Num.le n 0) eqn:E; [by left|].
  apply orb_false_iff in E as [Ht Hle].
  destruct n as [q| | |]; try done.
  - assert (0 <= q)%Q as Hq.
    { apply Qlt_le_weak, Qnot_le_lt. intros L.
      apply Qle_bool_iff in L. simpl in Hle. congruence. }
    right; right. destruct (Num.gt (Fin q) (inject_Z 10000)).
    + exists (Qfloor (q / 1000)). split; [|done].
      change 0%Z with (Qfloor 0). apply Qfloor_resp_le.
      apply Qmult_le_0_compat; [done|]. discriminate.
    + exists (Qfloor q). split; [|done].
      change 0%Z with (Qfloor 0). by apply Qfloor_resp_le.
  - right; by left.
Qed.

Lemma formatDuration_whole (stack : nat) (h : heap) (input r : val) :
  formatDuration stack h input = Ok r -> whole_seconds r.
Proof.
  revert input r. induction stack as [|stack IH]; intros input r; [done|].
  rewrite formatDuration_S. cbv zeta.
  assert (whole_seconds
            (if Js.truthy input && Js.truthy (Js.get_opt h input "duration")
             then match formatDuration stack h (Js.get_opt h input "duration") with
                  | Ok v => v
                  | Throw _ => VNull
                  end
             else VNull)) as Hnested.
  { destruct (Js.truthy input && Js.truthy (Js.get_opt h input "duration"));
      [|by left].
    destruct (formatDuration stack h (Js.get_opt h input "duration")) eqn:E;
      [by eapply IH|by left]. }
  destruct input as [| | |n|s|l]; intros [= <-]; try done.
  - destruct (Num.isNaN n); [done|apply normalize_whole].
  - destruct (Num.isNaN (Str.parseFloat s)); [done|apply normalize_whole].
Qed.

(** X5. Whatever it is given, a number, a string, an object with a
    [duration] at any depth, [formatDuration] returns [null] or a
    number of whole seconds that is not negative ([Infinity] for an
    infinite input): never a negative number, a fraction, NaN, a string
    or an object.  It does return 0, for a positive input below one
    second. *)
Theorem formatDuration_whole_seconds (stack : nat) (h : heap) (input : val) :
  (exists r, formatDuration (S stack) h input = Ok r /\ whole_seconds r)
  /\ formatDuration (S stack) h (VNum (Fin (1 # 2))) = Ok (VNum (Num.of_Z 0)).
Proof.
  split; [|reflexivity].
  destruct (formatDuration_returns stack h input) as [r Hr].
  exists r. split; [done|]. by eapply formatDuration_whole.
Qed.

End DurationRange.

(** ** Which pages count as recording pages *)

Section Page.
Import Content.

Lemma detectRecordingPage_Ok (this_storyId : val) (url : string) (h : heap) :
  exists v h2,
    detectRecordingPage this_storyId url h = Ok (v, h ++ h2)
    /\ Js.truthy v
       = (Str.includes "/watch/" url
          || Str.includes "/recordings/" url
          || Str.includes "/video/" url
             && (Str.includes "/view" url || bool_decide (is_Some (match_video_end url)))
          || negb (match this_storyId with VNull => true | _ => false end)).
Proof.
  unfold detectRecordingPage.
  destruct (Str.includes "/video/" url); cbn [andb].
  - destruct (Str.includes "/view" url); cbn [orb].
    + exists (VBool true), []. rewrite app_nil_r, bind_ret. split; [|by rewrite !orb_true_r].
      unfold ret, Js.or.
      by destruct (Str.includes "/watch/" url), (Str.includes "/recordings/" url).
    + destruct (match_video_end url) as [[whole id]|].
      * eexists (if Str.includes "/watch/" url || Str.includes "/recordings/" url
                 then VBool true else VRef (length h)), _.
        rewrite bind_alloc. unfold ret, Js.or.
        destruct (Str.includes "/watch/" url), (Str.includes "/recordings/" url);
          by split.
      * exists (VBool (Str.includes "/watch/" url
                       || Str.includes "/recordings/" url
                       || negb (match this_storyId with VNull => true | _ => false end))), [].
        rewrite app_nil_r, bind_ret. unfold ret, Js.or.
        destruct (Str.includes "/watch/" url), (Str.includes "/recordings/" url);
          split; try done; simpl; by rewrite ?orb_false_r.
  - exists (VBool (Str.includes "/watch/" url
                   || Str.includes "/recordings/" url
                   || negb (match this_storyId with VNull => true | _ => false end))), [].
    rewrite app_nil_r, bind_ret. unfold ret, Js.or.
    destruct (Str.includes "/watch/" url), (Str.includes "/recordings/" url);
      split; try done; simpl; by rewrite ?orb_false_r.
Qed.

(** X6. [detectRecordingPage] says yes, with a truthy value, on every
    address that [shouldInitialize] accepts, whatever the identifier;
    with a [null] identifier its answer is read off the address alone.
    In the constructor it runs before the identifier is assigned and
    finds it [undefined], which is not [null]: the [isRecordingPage]
    of a new extractor is truthy on every address. *)
Theorem detectRecordingPage_gate (url : string) (h : heap) :
  (forall this_storyId : val,
     shouldInitialize url = true ->
     exists v h',
       detectRecordingPage this_storyId url h = Ok (v, h')
       /\ Js.truthy v = true)
  /\ (exists v h',
        detectRecordingPage VNull url h = Ok (v, h')
        /\ Js.truthy v
           = (Str.includes "/watch/" url
              || Str.includes "/recordings/" url
              || Str.includes "/video/" url
                 && (Str.includes "/view" url
                     || bool_decide (is_Some (match_video_end url)))))
  /\ (exists x h',
        new_TellaDataExtractor url h = Ok (x, h')
        /\ Js.truthy (this_isRecordingPage x) = true
        /\ this_storyId x = of_option (extractStoryId url)).
Proof.
  split_and!.
  - intros sid Hinit.
    destruct (detectRecordingPage_Ok sid url h) as (v & h2 & Hrun & Hv).
    exists v, (h ++ h2). split; [done|]. rewrite Hv.
    unfold shouldInitialize in Hinit.
    destruct (Str.includes "/video/" url), (Str.includes "/view" url),
      (Str.includes "/watch/" url), (Str.includes "/recordings/" url);
      try done; by rewrite ?orb_true_r.
  - destruct (detectRecordingPage_Ok VNull url h) as (v & h2 & Hrun & Hv).
    exists v, (h ++ h2). split; [done|]. rewrite Hv.
    by rewrite orb_false_r.
  - unfold new_TellaDataExtractor. rewrite bind_alloc.
    destruct (detectRecordingPage_Ok VUndef url (h ++ [Obj []]))
      as (v & h2 & Hrun & Hv).
    unfold bind. rewrite Hrun. eexists _, _. split; [reflexivity|].
    cbn [this_isRecordingPage this_storyId]. split; [|done].
    rewrite Hv. by rewrite orb_true_r.
Qed.

End Page.

(** ** The history of deliveries *)

Section History.
Import Sidebar.

Lemma or_unknown (a b : val) :
  Js.truthy (Js.or (Js.or a b) (VStr "Unknown")) = true.
Proof.
  unfold Js.or. destruct (Js.truthy a) eqn:Ea; rewrite ?Ea; [done|].
  by destruct (Js.truthy b) eqn:Eb; rewrite ?Eb.
Qed.

(** X7. A delivery is recorded at the front of the stored history, and
    the history is cut to its first twenty entries: the new entry and
    the nineteen most recent earlier ones, in their order.  With nothing
    stored the history starts as the one entry.  The entry carries the
    time, a title that is never empty ([Unknown] at worst), the address,
    the webhook and [success: true].  Nothing is written when the store
    cannot be read, when what it holds is not an array, or when there
    is no extracted record. *)
Theorem storeSyncHistory_twenty (self : webhook) (now : string) (h : heap) :
  (forall (l : loc) (es : list val),
     h !! l = Some (Arr es) ->
     nullish (extractedData self) = false ->
     exists (entry : loc) (title url : val) (h' : heap),
       storeSyncHistory self now (Ok (VRef l)) h = (Some (VRef l), h')
       /\ h' !! l = Some (Arr (take 20 (VRef entry :: es)))
       /\ h' !! entry
          = Some (Obj [("timestamp", VStr now);
                       ("title", title);
                       ("url", url);
                       ("webhookUrl", webhookUrl self);
                       ("success", VBool true);
                       ("source", VStr "sidebar")])
       /\ Js.truthy title = true
       /\ length h <= entry
       /\ forall x, x <> l -> x < length h -> h' !! x = h !! x)
  /\ (forall syncHistory : val,
        Js.truthy syncHistory = false ->
        nullish (extractedData self) = false ->
        exists (l entry : loc) (h' : heap),
          storeSyncHistory self now (Ok syncHistory) h = (Some (VRef l), h')
          /\ h' !! l = Some (Arr [VRef entry])
          /\ length h <= l)
  /\ (forall x : exn, storeSyncHistory self now (Throw x) h = (None, h))
  /\ (forall syncHistory : val,
        Js.truthy syncHistory = true -> Js.isArray h syncHistory = false ->
        storeSyncHistory self now (Ok syncHistory) h = (None, h))
  /\ (forall syncHistory : val,
        nullish (extractedData self) = true ->
        storeSyncHistory self now (Ok syncHistory) h = (None, h)).
Proof.
  split_and!.
  - intros l es Hl Hdata. unfold storeSyncHistory, updatedHistory.
    cbn [Js.truthy]. rewrite bind_ret.
    rewrite (bind_lift_Ok (fun h0 => Js.get h0 (extractedData self) "video")
               _ _ _ (get_not_nullish _ _ _ Hdata)).
    rewrite !bind_reading, bind_alloc. rewrite (lookup_extend _ _ _ _ Hl).
    eexists (length h), _, _, _. split; [reflexivity|].
    assert (l < length h) as Hlt by (by eapply lookup_lt_Some).
    split_and!.
    + rewrite list_lookup_insert_eq by (rewrite length_app; lia).
      cbv zeta. cbn [length]. f_equal. f_equal.
      destruct (Nat.ltb_spec 20 (S (length es))); [done|].
      by rewrite take_ge by (cbn [length]; lia).
    + rewrite list_lookup_insert_ne by lia. apply lookup_alloc.
    + apply or_unknown.
    + done.
    + intros x Hx Hxlt. rewrite list_lookup_insert_ne by done.
      by rewrite lookup_app_l.
  - intros syncHistory Hfalsy Hdata. unfold storeSyncHistory, updatedHistory.
    rewrite Hfalsy, bind_alloc.
    assert (nullish (extractedData self) = false) as Hdata' by done.
    rewrite (bind_lift_Ok (fun h0 => Js.get h0 (extractedData self) "video")
               _ _ _ (get_not_nullish _ _ _ Hdata')).
    rewrite !bind_reading, bind_alloc.
    rewrite (lookup_extend _ [_] _ _ (lookup_alloc h (Arr []))).
    eexists (length h), (length (h ++ [Arr []])), _. split; [reflexivity|].
    split; [|done].
    rewrite list_lookup_insert_eq by (rewrite !length_app; simpl; lia).
    done.
  - done.
  - intros syncHistory Htruthy Harr. unfold storeSyncHistory, updatedHistory.
    rewrite Htruthy, bind_ret. unfold bind at 1.
    destruct (lift (Js.get h (extractedData self) "video") h) as [[video h1]|] eqn:E;
      [|done].
    assert (h1 = h) as -> by (unfold lift in E; by destruct (Js.get _ _ _); simplify_eq).
    rewrite !bind_reading, bind_alloc.
    destruct syncHistory as [| | | | |l]; try done.
    simpl in Harr.
    destruct (h !! l) as [[ps|es]|] eqn:El; try done.
    + by rewrite (lookup_extend _ _ _ _ El).
    + destruct (decide (l = length h)) as [->|Hne].
      * apply lookup_ge_None in El as ?. by rewrite lookup_alloc.
      * rewrite lookup_ge_None_2; [done|].
        apply lookup_ge_None in El. rewrite length_app. simpl. lia.
  - intros syncHistory Hdata. unfold storeSyncHistory, updatedHistory.
    destruct (extractedData self) eqn:Ed; try done.
    + destruct (Js.truthy syncHistory); [by rewrite bind_ret|].
      by rewrite bind_alloc.
    + destruct (Js.truthy syncHistory); [by rewrite bind_ret|].
      by rewrite bind_alloc.
Qed.

End History.

(** ** The envelope of a delivery *)

Section Envelope.
Import Sidebar.

(** The last four steps of [_buildEnhancedPayload] allocate the copy of
    [content] and then the payload. *)
Lemma payload_tail_fresh (hk : heap) (contentData extractedData : val)
    (md : string) :
  exists (c o : hobj),
    (let* inner := reading (fun h0 => Js.spread h0 contentData) in
     let* content := alloc (Obj (Js.set_prop "chaptersMd" (VStr md) inner)) in
     let* outer := reading (fun h0 => Js.spread h0 extractedData) in
     alloc (Obj (Js.set_prop "content" content outer))) hk
    = Ok (VRef (S (length hk)), hk ++ [c; o])
    /\ Js.get (hk ++ [c; o]) (VRef (S (length hk))) "content"
       = Ok (VRef (length hk))
    /\ Js.get (hk ++ [c; o]) (VRef (length hk)) "chaptersMd" = Ok (VStr md).
Proof.
  eexists _, _. rewrite bind_reading, bind_alloc, bind_reading. unfold alloc.
  rewrite length_app. simpl length.
  replace (length hk + 1) with (S (length hk)) by lia.
  rewrite <- app_assoc. cbn [app]. split_and!.
  - reflexivity.
  - simpl. rewrite lookup_app_r by lia.
    replace (S (length hk) - length hk) with 1 by lia.
    simpl. by rewrite lookup_set_prop_eq.
  - simpl. rewrite lookup_alloc'. by rewrite lookup_set_prop_eq.
Qed.

Lemma buildEnhancedPayload_inv (stack : nat) (data r : val) (h h' : heap) :
  _buildEnhancedPayload stack data h = Ok (r, h') ->
  exists (p c : loc) (md : string) (h2 : heap),
    r = VRef p /\ h' = h ++ h2 /\ length h <= c /\ length h <= p
    /\ Js.get h' (VRef p) "content" = Ok (VRef c)
    /\ Js.get h' (VRef c) "chaptersMd" = Ok (VStr md).
Proof.
  unfold _buildEnhancedPayload. rewrite bind_reading.
  set (content0 := Js.get_opt h data "content").
  assert (forall (hk : heap) (contentData : val) (k : heap),
            hk = h ++ k ->
            (let* chapters0 :=
               reading (fun h0 => Js.get_opt h0 contentData "chapters") in
             let* chapters :=
               if Js.truthy chapters0 then ret chapters0 else alloc (Arr []) in
             let* chaptersMd :=
               fun h0 => lift (formatChaptersAsMarkdown stack h0 chapters) h0 in
             let* inner := reading (fun h0 => Js.spread h0 contentData) in
             let* content :=
               alloc (Obj (Js.set_prop "chaptersMd" (VStr chaptersMd) inner)) in
             let* outer := reading (fun h0 => Js.spread h0 data) in
             alloc (Obj (Js.set_prop "content" content outer))) hk
            = Ok (r, h') ->
            exists (p c : loc) (md : string) (h2 : heap),
              r = VRef p /\ h' = h ++ h2 /\ length h <= c /\ length h <= p
              /\ Js.get h' (VRef p) "content" = Ok (VRef c)
              /\ Js.get h' (VRef c) "chaptersMd" = Ok (VStr md)) as Hrest.
  { intros hk contentData k -> Hrun. rewrite bind_reading in Hrun.
    assert (forall (hj : heap) (chapters : val) (j : heap),
              hj = h ++ j ->
              (let* chaptersMd :=
                 fun h0 => lift (formatChaptersAsMarkdown stack h0 chapters) h0 in
               let* inner := reading (fun h0 => Js.spread h0 contentData) in
               let* content :=
                 alloc (Obj (Js.set_prop "chaptersMd" (VStr chaptersMd) inner)) in
               let* outer := reading (fun h0 => Js.spread h0 data) in
               alloc (Obj (Js.set_prop "content" content outer))) hj
              = Ok (r, h') ->
              exists (p c : loc) (md : string) (h2 : heap),
                r = VRef p /\ h' = h ++ h2 /\ length h <= c /\ length h <= p
                /\ Js.get h' (VRef p) "content" = Ok (VRef c)
                /\ Js.get h' (VRef c) "chaptersMd" = Ok (VStr md)) as Htail.
    { intros hj chapters j -> Htail. unfold bind at 1, lift in Htail.
      destruct (formatChaptersAsMarkdown stack (h ++ j) chapters) as [md|];
        [|done].
      destruct (payload_tail_fresh (h ++ j) contentData data md)
        as (c & o & Hrun' & Hc & Hmd).
      rewrite Hrun' in Htail. injection Htail as <- <-.
      exists (S (length (h ++ j))), (length (h ++ j)), md, (j ++ [c; o]).
      rewrite app_assoc. split_and!; try done; rewrite length_app; lia. }
    destruct (Js.truthy (Js.get_opt (h ++ k) contentData "chapters")).
    - rewrite bind_ret in Hrun. by eapply Htail.
    - rewrite bind_alloc in Hrun. eapply (Htail _ _ (k ++ [Arr []])); [|done].
      by rewrite app_assoc. }
  destruct (Js.truthy content0).
  - rewrite bind_ret. apply (Hrest h content0 []). by rewrite app_nil_r.
  - rewrite bind_alloc. by apply (Hrest _ _ [Obj []]).
Qed.

Lemma buildEnhancedPayload_no_chapters (stack : nat) (data : val) (h : heap) :
  payload_chapters h data = [] ->
  exists (r : val) (h' : heap), _buildEnhancedPayload stack data h = Ok (r, h').
Proof.
  intros Hnone. unfold payload_chapters in Hnone.
  unfold _buildEnhancedPayload. rewrite bind_reading.
  destruct (Js.truthy (Js.get_opt h data "content")) eqn:Hcontent.
  - rewrite bind_ret, bind_reading.
    destruct (Js.truthy (Js.get_opt h (Js.get_opt h data "content") "chapters"))
      eqn:Hchapters.
    + rewrite bind_ret.
      rewrite (bind_lift_Ok
                 (fun h0 => formatChaptersAsMarkdown stack h0
                    (Js.get_opt h (Js.get_opt h data "content") "chapters"))
                 _ _ _ (formatChaptersAsMarkdown_none stack h _ Hnone)).
      destruct (payload_tail_fresh h (Js.get_opt h data "content") data "")
        as (c & o & -> & _).
      by eexists _, _.
    + rewrite bind_alloc.
      rewrite (bind_lift_Ok
                 (fun h0 => formatChaptersAsMarkdown stack h0 (VRef (length h)))
                 _ _ "").
      2:{ apply formatChaptersAsMarkdown_none. simpl. by rewrite lookup_alloc. }
      destruct (payload_tail_fresh (h ++ [Arr []])
                  (Js.get_opt h data "content") data "") as (c & o & -> & _).
      by eexists _, _.
  - rewrite bind_alloc, bind_reading.
    assert (Js.get_opt (h ++ [Obj []]) (VRef (length h)) "chapters" = VUndef)
      as -> by (unfold Js.get_opt; simpl; by rewrite lookup_alloc).
    cbn [Js.truthy]. rewrite bind_alloc.
    rewrite (bind_lift_Ok
               (fun h0 => formatChaptersAsMarkdown stack h0
                  (VRef (length (h ++ [Obj []]))))
               _ _ "").
    2:{ apply formatChaptersAsMarkdown_none. simpl. by rewrite lookup_alloc. }
    destruct (payload_tail_fresh ((h ++ [Obj []]) ++ [Arr []])
                (VRef (length h)) data "") as (c & o & -> & _).
    by eexists _, _.
Qed.

(** X8. The envelope of a delivery is built beside the extracted
    record, which is left as it is: [getWebhookPayload] only allocates.
    The envelope, its [data] and the [content] of that are new objects,
    [data.content.chaptersMd] is a string, and the extracted record
    itself never receives a [chaptersMd].  Without extracted data the
    method returns [null]; it does return when the record has no
    chapters. *)
Theorem getWebhookPayload_fresh (stack : nat) (self : webhook) (now : string)
    (h : heap) :
  (Js.truthy (extractedData self) = false ->
   getWebhookPayload stack self now h = Ok (VNull, h))
  /\ (forall (r : val) (h' : heap),
        Js.truthy (extractedData self) = true ->
        getWebhookPayload stack self now h = Ok (r, h') ->
        exists (envelope data content : loc) (md : string) (h2 : heap),
          r = VRef envelope /\ h' = h ++ h2
          /\ h' !! envelope
             = Some (Obj [("event", VStr "tella_data_extracted");
                          ("timestamp", VStr now);
                          ("source", VStr "tella-extension-sidebar");
                          ("data", VRef data)])
          /\ length h <= envelope /\ length h <= data /\ length h <= content
          /\ Js.get h' (VRef data) "content" = Ok (VRef content)
          /\ Js.get h' (VRef content) "chaptersMd" = Ok (VStr md))
  /\ (Js.truthy (extractedData self) = true ->
      payload_chapters h (extractedData self) = [] ->
      exists (r : val) (h' : heap),
        getWebhookPayload stack self now h = Ok (r, h')).
Proof.
  split_and!.
  - intros Hfalsy. unfold getWebhookPayload. by rewrite Hfalsy.
  - intros r h' Htruthy. unfold getWebhookPayload. rewrite Htruthy.
    cbn [negb]. intros Hrun.
    apply bind_Ok in Hrun as (enhanced & h1 & Hbuild & Halloc).
    apply buildEnhancedPayload_inv in Hbuild
      as (p & c & md & h2 & -> & -> & Hc & Hp & Hcontent & Hmd).
    apply alloc_Ok in Halloc as [-> ->].
    exists (length (h ++ h2)), p, c, md, (h2 ++ [Obj
           [("event", VStr "tella_data_extracted"); ("timestamp", VStr now);
            ("source", VStr "tella-extension-sidebar"); ("data", VRef p)]]).
    rewrite app_assoc. split_and!; try done.
    + apply lookup_alloc.
    + rewrite length_app. lia.
    + assert (valid (h ++ h2) (VRef p)) as Hv.
      { simpl. destruct ((h ++ h2) !! p) eqn:E; [by eapply lookup_lt_Some|].
        simpl in Hcontent. by rewrite E in Hcontent. }
      by rewrite get_extend.
    + assert (valid (h ++ h2) (VRef c)) as Hv.
      { simpl. destruct ((h ++ h2) !! c) eqn:E; [by eapply lookup_lt_Some|].
        simpl in Hmd. by rewrite E in Hmd. }
      by rewrite get_extend.
  - intros Htruthy Hnone. unfold getWebhookPayload. rewrite Htruthy.
    cbn [negb].
    destruct (buildEnhancedPayload_no_chapters stack _ h Hnone)
      as (r & h' & Hrun).
    unfold bind. rewrite Hrun. by eexists _, _.
Qed.

End Envelope.

(** ** Pruning loses no data *)

Section Retention.
Import Content.

Lemma retains_refl (h : heap) : retains h h.
Proof. intros x ps k v Hx Hk _. by rewrite (props_obj _ _ _ Hx). Qed.

Lemma lookup_props_obj (h : heap) (x : loc) (k : string) (v : val) :
  Js.lookup_prop k (Js.props h (VRef x)) = Some v ->
  exists ps, h !! x = Some (Obj ps) /\ Js.lookup_prop k ps = Some v.
Proof.
  simpl. destruct (h !! x) as [[ps|es]|]; try done. by exists ps.
Qed.

Lemma holds_data_retained (h h' : heap) (v : val) :
  shrinks h h' -> retains h h' -> holds_data h v -> holds_data h' v.
Proof.
  intros Hs Hr. induction 1 as [v Hv|c ps k v Hc Hk Hd IH].
  - apply holds_leaf. intros Hp. apply Hv. by eapply shrinks_prunable.
  - destruct (lookup_props_obj _ _ _ _ (Hr c ps k v Hc Hk Hd))
      as (ps' & Hc' & Hk').
    by eapply holds_node.
Qed.

Lemma retains_trans (h1 h2 h3 : heap) :
  shrinks h1 h2 -> retains h1 h2 -> retains h2 h3 -> retains h1 h3.
Proof.
  intros Hs H12 H23 x ps k v Hx Hk Hd.
  destruct (lookup_props_obj _ _ _ _ (H12 x ps k v Hx Hk Hd))
    as (ps2 & Hx2 & Hk2).
  eapply H23; [done..|]. by eapply holds_data_retained.
Qed.

Lemma delete_key_retains (h : heap) (l : loc) (k : string) :
  ~ holds_data h (default VUndef (Js.lookup_prop k (Js.props h (VRef l)))) ->
  retains h (delete_key l k h).
Proof.
  intros Hv x ps k' v Hx Hk Hd. simpl. rewrite delete_key_lookup.
  destruct (h !! l) as [[psl|es]|] eqn:Hl; try (by rewrite Hx).
  destruct (decide (x = l)) as [->|Hne]; [|by rewrite Hx].
  rewrite Hl in Hx. injection Hx as ->.
  rewrite lookup_prop_delete.
  destruct (String.eqb_spec k k') as [->|Hkk]; [|done].
  exfalso. apply Hv. by rewrite (props_obj _ _ _ Hl), Hk.
Qed.

Lemma hollow_nullish (h : heap) (v : val) : nullish v = true -> ~ holds_data h v.
Proof.
  intros Hn Hd. inversion Hd as [v' Hp|]; subst; [|done].
  apply Hp. by left.
Qed.

Lemma hollow_empty (h : heap) (c : loc) :
  h !! c = Some (Obj []) -> ~ holds_data h (VRef c).
Proof.
  intros Hc Hd. inversion Hd as [v' Hp|c' ps k v Hc' Hk _]; subst.
  - apply Hp. right. exists c. split; [done|by eexists].
  - rewrite Hc in Hc'. by injection Hc' as <-.
Qed.

Section Loop.
Variable rec : loc -> heap -> result heap.
Hypothesis rec_prunes : forall c h h', rec c h = Ok h' -> prunes h h'.
Hypothesis rec_retains : forall c h h', rec c h = Ok h' -> retains h h'.

Lemma clean_key_retains (l : loc) (k : string) (h h' : heap) :
  clean_key rec l k h = Ok h' -> retains h h'.
Proof.
  unfold clean_key.
  destruct (default VUndef (Js.lookup_prop k (Js.props h (VRef l))))
    as [| | | | |c] eqn:Hv; try (intros [= <-]; apply retains_refl).
  - intros [= <-]. apply delete_key_retains. rewrite Hv.
    by apply hollow_nullish.
  - intros [= <-]. apply delete_key_retains. rewrite Hv.
    by apply hollow_nullish.
  - destruct (h !! c) as [[ps|es]|] eqn:Hc;
      try (intros [= <-]; apply retains_refl).
    destruct (rec c h) as [hr|] eqn:Hr; [|done].
    pose proof (rec_prunes _ _ _ Hr) as [Hs _].
    pose proof (rec_retains _ _ _ Hr) as Hret.
    assert (is_obj hr c) as [psr Hcr].
    { apply (shrinks_is_obj h hr c Hs). by eexists. }
    rewrite (props_obj _ _ _ Hcr).
    destruct psr as [|p psr]; intros [= <-]; [|done].
    eapply retains_trans; [done..|].
    apply delete_key_retains.
    destruct (Js.lookup_prop k (Js.props hr (VRef l))) as [v|] eqn:Hk;
      [|by apply hollow_nullish].
    apply (shrinks_lookup h) in Hk; [|done].
    rewrite Hk in Hv. simpl in Hv. subst v. by apply hollow_empty.
Qed.

Lemma clean_keys_retains (l : loc) (keys : list string) (h h' : heap) :
  clean_keys rec l keys h = Ok h' -> retains h h'.
Proof.
  revert h. induction keys as [|k keys IH]; intros h; simpl.
  - intros [= <-]. apply retains_refl.
  - destruct (clean_key rec l k h) as [h1|] eqn:H1; [|done].
    intros H. eapply retains_trans.
    + by apply (clean_key_prunes rec rec_prunes l k h h1).
    + by eapply clean_key_retains.
    + by apply IH.
Qed.

End Loop.

Lemma cleanObject_retains (stack : nat) (l : loc) (h h' : heap) :
  cleanObject stack l h = Ok h' -> retains h h'.
Proof.
  revert l h h'. induction stack as [|stack IH]; intros l h h'; [done|].
  rewrite cleanObject_S. apply clean_keys_retains; [|exact IH].
  intros c h0 h1. apply cleanObject_prunes.
Qed.

(** X9. Pruning loses no data.  After [cleanObject], every property
    of every object of the store whose value held data before (a
    string, empty or not, a number, zero included, a boolean, an array,
    or a plain object that holds data at any depth) is still there
    with the same value, and the value still holds data. *)
Theorem cleanObject_loses_no_data (stack : nat) (l : loc) (h h' : heap)
    (x : loc) (ps : list (string * val)) (k : string) (v : val) :
  cleanObject stack l h = Ok h' ->
  h !! x = Some (Obj ps) ->
  Js.lookup_prop k ps = Some v ->
  holds_data h v ->
  Js.lookup_prop k (Js.props h' (VRef x)) = Some v /\ holds_data h' v.
Proof.
  intros Hrun Hx Hk Hd. split.
  - by eapply cleanObject_retains.
  - eapply holds_data_retained; [| |done].
    + by apply (cleanObject_prunes stack l).
    + by eapply cleanObject_retains.
Qed.

Lemma cleanObject_loses_no_data_witness :
  let h := [Obj [("note", VStr ""); ("gone", VNull)];
            Obj [("inner", VRef 0)];
            Obj [("outer", VRef 1); ("none", VNull)]] in
  exists h',
    cleanObject 3 2 h = Ok h'
    /\ Js.lookup_prop "outer" (Js.props h' (VRef 2)) = Some (VRef 1)
    /\ holds_data h' (VRef 1).
Proof.
  intros h.
  destruct (cleanObject 3 2 h) as [h'|] eqn:E; [|vm_compute in E; discriminate].
  exists h'. split; [done|].
  apply (cleanObject_loses_no_data 3 2 h h' 2
           [("outer", VRef 1); ("none", VNull)] "outer" (VRef 1) E eq_refl eq_refl).
  apply (holds_node h 1 [("inner", VRef 0)] "inner" (VRef 0) eq_refl eq_refl).
  apply (holds_node h 0 [("note", VStr ""); ("gone", VNull)] "note" (VStr "")
           eq_refl eq_refl).
  apply holds_leaf. intros [Hn|(c & Hc & _)]; discriminate.
Defined.

End Retention.

(** ** What every record has *)

Section Record.
Import Content.

Lemma mapM_length {A B : Type} (f : A -> M B) (l : list A) (h h' : heap)
    (vs : list B) :
  mapM f l h = Ok (vs, h') -> length vs = length l.
Proof.
  revert h vs. induction l as [|a l IH]; intros h vs; simpl.
  - by intros [= <- _].
  - intros H. apply bind_Ok in H as (b & h1 & _ & H).
    apply bind_Ok in H as (bs & h2 & Hrest & H). unfold ret in H.
    injection H as <- <-. simpl. f_equal. by eapply IH.
Qed.

Lemma parseChapter_grows (c v : val) (h h' : heap) :
  parseChapter c h = Ok (v, h') -> length h' = S (length h).
Proof.
  unfold parseChapter. intros H.
  repeat (apply bind_Ok in H as (? & ? & Hl & H);
          unfold lift in Hl; destruct (Js.get _ _ _); [|done];
          injection Hl as <- <-).
  injection H as _ <-. rewrite length_app. simpl. lia.
Qed.

Lemma mapM_parseChapter_grows (es vs : list val) (h h' : heap) :
  mapM parseChapter es h = Ok (vs, h') -> length h <= length h'.
Proof.
  revert h vs. induction es as [|c es IH]; intros h vs; simpl.
  - intros H. unfold ret in H. by injection H as _ <-.
  - intros H. apply bind_Ok in H as (b & h1 & Hc & H).
    apply bind_Ok in H as (bs & h2 & Hrest & H). unfold ret in H.
    injection H as _ <-. apply parseChapter_grows in Hc. apply IH in Hrest.
    lia.
Qed.

Lemma parseChapters_array (chapters r : val) (h h' : heap) :
  parseChapters chapters h = Ok (r, h') ->
  exists (a : loc) (vs : list val),
    r = VRef a /\ h' !! a = Some (Arr vs) /\ length h <= a
    /\ length vs = length (Js.elems h chapters).
Proof.
  unfold parseChapters. rewrite !bind_reading.
  destruct (negb (Js.truthy chapters) || negb (Js.isArray h chapters)
            || (length (Js.elems h chapters) =? 0)%nat) eqn:E.
  - intros [= <- <-]. exists (length h), []. split_and!; [done| |done|].
    + apply lookup_alloc.
    + destruct chapters as [| | | | |l]; try done. simpl in *.
      destruct (h !! l) as [[ps|es]|]; try done. simpl in E.
      by apply Nat.eqb_eq in E.
  - intros H. apply bind_Ok in H as (vs & h1 & Hmap & H).
    injection H as <- <-. exists (length h1), vs. split_and!; [done| | |].
    + apply lookup_alloc.
    + by eapply mapM_parseChapter_grows.
    + by eapply mapM_length.
Qed.

Lemma lookup_alloc3 (h : heap) (a b c : hobj) :
  (h ++ [a; b; c]) !! length h = Some a
  /\ (h ++ [a; b; c]) !! S (length h) = Some b
  /\ (h ++ [a; b; c]) !! S (S (length h)) = Some c.
Proof.
  split_and!.
  - by rewrite lookup_alloc'.
  - rewrite lookup_app_r by lia.
    by replace (S (length h) - length h) with 1 by lia.
  - rewrite lookup_app_r by lia.
    by replace (S (S (length h)) - length h) with 2 by lia.
Qed.

(** The store as [parseDocumentData] has built it when it calls
    [cleanObject]. *)
Lemma parseDocumentData_built (e : env) (data transcriptionData : val)
    (h h' : heap) (r : val) :
  parseDocumentData e data transcriptionData h = Ok (r, h') ->
  exists (hc : heap) (a : loc) (vs : list val) (info video timing : val),
    r = VRef (S (S (length hc)))
    /\ hc !! a = Some (Arr vs)
    /\ cleanObject (stack e) (S (S (length hc)))
         (hc ++ [Obj [("chapters", VRef a); ("transcription", info)];
                 Obj [("extractedAt", VStr (now e));
                      ("pageUrl", VStr (href e));
                      ("extractionMethod", VStr "api");
                      ("extensionVersion",
                        Js.or (of_option (manifestVersion e)) (VStr "unknown"))];
                 Obj [("video", video); ("timing", timing);
                      ("content", VRef (length hc));
                      ("metadata", VRef (S (length hc)))]])
       = Ok h'.
Proof.
  unfold parseDocumentData. intros H.
  repeat (apply bind_Ok in H as (? & ? & ? & H); cbv zeta in H).
  do 3 match goal with
       | Ha : alloc _ _ = Ok _ |- _ => apply alloc_Ok in Ha as [-> ->]
       end.
  match goal with
  | Hc : parseChapters _ _ = Ok (_, ?hc) |- _ =>
      apply parseChapters_array in Hc as (a & vs & -> & Ha & _);
      exists hc, a, vs
  end.
  rewrite !length_app in H. cbn [length] in H.
  replace (length x36 + 1 + 1) with (S (S (length x36))) in H by lia.
  replace (length x36 + 1) with (S (length x36)) in H by lia.
  rewrite <- !app_assoc in H. cbn [app] in H.
  eexists _, _, _.
  match type of H with
  | match ?run with _ => _ end = _ => destruct run as [hr|] eqn:Hrun; [|done]
  end.
  injection H as <- <-. by split_and!.
Qed.

Lemma version_string (e : env) :
  exists s, Js.or (of_option (manifestVersion e)) (VStr "unknown") = VStr s.
Proof.
  destruct (manifestVersion e) as [[|c s]|]; simpl; unfold Js.or; simpl;
    by eexists.
Qed.

Lemma not_prunable_string (h : heap) (s : string) : ~ prunable h (VStr s).
Proof. intros [Hn|(c & Hc & _)]; discriminate. Qed.

Lemma not_prunable_array (h : heap) (a : loc) (es : list val) :
  h !! a = Some (Arr es) -> ~ prunable h (VRef a).
Proof.
  intros Ha [Hn|(c & [= <-] & ps & Hc)]; [done|]. by rewrite Ha in Hc.
Qed.

(** What a finished record always has, whatever the payloads. *)
Lemma parseDocumentData_shape (e : env) (data transcriptionData : val)
    (h h' : heap) (r : val) :
  parseDocumentData e data transcriptionData h = Ok (r, h') ->
  exists (metadata content chapters : loc) (es : list val) (version : string),
    Js.lookup_prop "metadata" (Js.props h' r) = Some (VRef metadata)
    /\ h' !! metadata
       = Some (Obj [("extractedAt", VStr (now e));
                    ("pageUrl", VStr (href e));
                    ("extractionMethod", VStr "api");
                    ("extensionVersion", VStr version)])
    /\ Js.lookup_prop "content" (Js.props h' r) = Some (VRef content)
    /\ Js.lookup_prop "chapters" (Js.props h' (VRef content))
       = Some (VRef chapters)
    /\ h' !! chapters = Some (Arr es)
    /\ forall k v,
         Js.lookup_prop k (Js.props h' r) = Some v ->
         k ∈ ["video"; "timing"; "content"; "metadata"].
Proof.
  intros H.
  apply parseDocumentData_built in H
    as (hc & a & vs & info & video & timing & -> & Ha & Hrun).
  destruct (version_string e) as [version Hversion].
  rewrite Hversion in Hrun.
  set (h0 := hc ++ _) in Hrun.
  destruct (lookup_alloc3 hc
              (Obj [("chapters", VRef a); ("transcription", info)])
              (Obj [("extractedAt", VStr (now e)); ("pageUrl", VStr (href e));
                    ("extractionMethod", VStr "api");
                    ("extensionVersion", VStr version)])
              (Obj [("video", video); ("timing", timing);
                    ("content", VRef (length hc));
                    ("metadata", VRef (S (length hc)))]))
    as (Hcontent & Hmetadata & Hroot).
  fold h0 in Hcontent, Hmetadata, Hroot.
  pose proof (lookup_extend hc _ _ _ Ha : h0 !! a = Some (Arr vs)) as Ha0.
  pose proof (cleanObject_prunes _ _ _ _ Hrun) as [Hs Hsp].
  pose proof (cleanObject_retains _ _ _ _ Hrun) as Hret.
  assert (holds_data h0 (VRef (S (length hc)))) as Hdm.
  { eapply (holds_node h0 _ _ "extractionMethod"); [exact Hmetadata|done|].
    apply holds_leaf, not_prunable_string. }
  assert (holds_data h0 (VRef a)) as Hda.
  { by eapply holds_leaf, not_prunable_array. }
  assert (holds_data h0 (VRef (length hc))) as Hdc.
  { by eapply (holds_node h0 _ _ "chapters"); [exact Hcontent|done|]. }
  exists (S (length hc)), (length hc), a, vs, version. split_and!.
  - by eapply Hret.
  - rewrite (Hsp 1 (S (length hc))); [done|].
    eexists. split; [exact Hmetadata|]. intros k v Hk. split.
    + cbn [Js.lookup_prop] in Hk.
      repeat (destruct (String.eqb _ k); [by injection Hk as <-|]). done.
    + intros c ps' -> Hc. cbn [Js.lookup_prop] in Hk.
      repeat (destruct (String.eqb _ k); [done|]). done.
  - by eapply Hret.
  - by eapply Hret.
  - by eapply cleanObject_array.
  - intros k v Hk. apply (shrinks_lookup h0) in Hk; [|done].
    rewrite (props_obj _ _ _ Hroot) in Hk. cbn [Js.lookup_prop] in Hk.
    destruct (String.eqb_spec "video" k) as [<-|_]; [repeat constructor|].
    destruct (String.eqb_spec "timing" k) as [<-|_]; [repeat constructor|].
    destruct (String.eqb_spec "content" k) as [<-|_]; [repeat constructor|].
    destruct (String.eqb_spec "metadata" k) as [<-|_]; [repeat constructor|].
    done.
Qed.

(** X10. Every record that [parseDocumentData] returns, whatever the
    payloads hold, has a [metadata] object with exactly [extractedAt],
    [pageUrl], [extractionMethod: "api"] and [extensionVersion], and a
    [content] object whose [chapters] is an array; and it has no
    top-level property besides [video], [timing], [content] and
    [metadata]. *)
Theorem parseDocumentData_always_has (e : env) (data transcriptionData : val)
    (h h' : heap) (r : val) :
  parseDocumentData e data transcriptionData h = Ok (r, h') ->
  exists (metadata content chapters : loc) (es : list val) (version : string),
    Js.lookup_prop "metadata" (Js.props h' r) = Some (VRef metadata)
    /\ h' !! metadata
       = Some (Obj [("extractedAt", VStr (now e));
                    ("pageUrl", VStr (href e));
                    ("extractionMethod", VStr "api");
                    ("extensionVersion", VStr version)])
    /\ Js.lookup_prop "content" (Js.props h' r) = Some (VRef content)
    /\ Js.lookup_prop "chapters" (Js.props h' (VRef content))
       = Some (VRef chapters)
    /\ h' !! chapters = Some (Arr es)
    /\ forall k v,
         Js.lookup_prop k (Js.props h' r) = Some v ->
         k ∈ ["video"; "timing"; "content"; "metadata"].
Proof. apply parseDocumentData_shape. Qed.

Lemma parseDocumentData_always_has_witness :
  exists (r : val) (h' : heap) (content chapters : loc) (es : list val),
    parseDocumentData Sample.env (fst Sample.document_store) VNull
      (snd Sample.document_store) = Ok (r, h')
    /\ Js.lookup_prop "content" (Js.props h' r) = Some (VRef content)
    /\ Js.lookup_prop "chapters" (Js.props h' (VRef content))
       = Some (VRef chapters)
    /\ h' !! chapters = Some (Arr es).
Proof.
  destruct (parseDocumentData Sample.env (fst Sample.document_store) VNull
              (snd Sample.document_store)) as [[r h']|] eqn:E;
    [|vm_compute in E; discriminate].
  destruct (parseDocumentData_always_has _ _ _ _ _ _ E)
    as (metadata & content & chapters & es & version & _ & _ & Hc & Hch & Ha & _).
  exists r, h', content, chapters, es.
  split; [reflexivity|]. split; [exact Hc|]. split; [exact Hch|exact Ha].
Defined.

End Record.

(** ** The chapter list *)

Section Chapters.
Import Content.





End Chapters.

(** ** The two sources together *)

Section Sources.
Import Content.

Lemma extractFromAPI_record (e : env) (document transcription : fetched)
    (h h1 : heap) (r : val) :
  extractFromAPI e document transcription h = (r, h1) ->
  Js.truthy r = true ->
  exists (data transcriptionData : val) (h0 : heap),
    parseDocumentData e data transcriptionData h0 = Ok (r, h1).
Proof.
  unfold extractFromAPI.
  destruct (negb (Js.truthy (of_option (storyId e)))).
  { by intros [= <- <-]. }
  destruct (fetchDocumentData document h) as [documentData hd].
  destruct (Js.truthy documentData); [|by intros [= <- <-]].
  destruct (fetchTranscriptionData transcription hd) as [transcriptionData ht].
  destruct (parseDocumentData e documentData transcriptionData ht)
    as [[r' h']|x] eqn:E; [|by intros [= <- <-]].
  intros [= <- <-] _. by eexists _, _, _.
Qed.

(** A record of the structured source has no top-level [transcript]. *)
Lemma record_without_transcript (e : env) (data transcriptionData : val)
    (h0 h1 : heap) (r : val) :
  parseDocumentData e data transcriptionData h0 = Ok (r, h1) ->
  exists (l : loc) (ps : list (string * val)),
    r = VRef l /\ h1 !! l = Some (Obj ps)
    /\ Js.lookup_prop "transcript" ps = None
    /\ Js.get h1 r "transcript" = Ok VUndef.
Proof.
  intros H.
  destruct (parseDocumentData_record _ _ _ _ _ _ H) as (l & -> & ps & Hl).
  destruct (parseDocumentData_shape _ _ _ _ _ _ H)
    as (_ & _ & _ & _ & _ & _ & _ & _ & _ & _ & Hkeys).
  rewrite (props_obj _ _ _ Hl) in Hkeys.
  assert (Js.lookup_prop "transcript" ps = None) as Hnone.
  { destruct (Js.lookup_prop "transcript" ps) as [v|] eqn:E; [|done].
    apply Hkeys in E.
    by repeat (apply elem_of_cons in E as [?|E]; [done|]);
      apply elem_of_nil in E. }
  exists l, ps. split_and!; [done..|]. simpl. by rewrite Hl, Hnone.
Qed.

(** X12. When the structured source gives a record, [extractAllData]
    returns that very object, and it always asks the page for a
    transcript, whether the record's [content.transcription] has one or
    not, because it looks for [transcript] at the top of the record,
    where the structured source never puts it.  If the page has a
    transcript, the record receives it as a top-level [transcript],
    with a top-level [extractionMethod] of [api+dom]; if it has none,
    the record is returned as it is; if the scraper throws, the
    extraction fails. *)
Theorem extractAllData_asks_page (e : env) (document transcription : fetched)
    (page : dom) (h h1 : heap) (r : val) :
  extractFromAPI e document transcription h = (r, h1) ->
  Js.truthy r = true ->
  exists (l : loc) (ps : list (string * val)),
    r = VRef l /\ h1 !! l = Some (Obj ps)
    /\ Js.lookup_prop "transcript" ps = None
    /\ (forall t : val,
          extractTranscript page = Ok t -> Js.truthy t = true ->
          extractAllData e document transcription page h
          = Ok (r, <[l := Obj (Js.set_prop "extractionMethod" (VStr "api+dom")
                                 (Js.set_prop "transcript" t ps))]> h1))
    /\ (forall t : val,
          extractTranscript page = Ok t -> Js.truthy t = false ->
          extractAllData e document transcription page h = Ok (r, h1))
    /\ (forall x : exn,
          extractTranscript page = Throw x ->
          extractAllData e document transcription page h = Throw x).
Proof.
  intros Hapi Htruthy.
  destruct (extractFromAPI_record _ _ _ _ _ _ Hapi Htruthy)
    as (data & td & h0 & Hparse).
  destruct (record_without_transcript _ _ _ _ _ _ Hparse)
    as (l & ps & -> & Hl & Hnone & Hget).
  exists l, ps. split_and!; [done..| | |].
  - intros t Ht Htt. unfold extractAllData. rewrite Hapi, Htruthy, Hget.
    cbn [Js.truthy negb]. rewrite Ht, Htt. do 2 f_equal.
    unfold Js.assign. rewrite Hl.
    rewrite list_lookup_insert_eq by (by eapply lookup_lt_Some).
    by rewrite list_insert_insert_eq.
  - intros t Ht Htt. unfold extractAllData. rewrite Hapi, Htruthy, Hget.
    cbn [Js.truthy negb]. by rewrite Ht, Htt.
  - intros x Hx. unfold extractAllData. rewrite Hapi, Htruthy, Hget.
    cbn [Js.truthy negb]. by rewrite Hx.
Qed.

Lemma extractAllData_asks_page_witness :
  let page := {| extractTitle := Ok VNull;
                 extractTranscript := Ok (VStr "Hello world, from the page.");
                 extractChapters := Ok VNull;
                 extractCreatedDate := Ok VNull;
                 extractPlaylist := Ok VNull;
                 extractDuration := Ok VNull;
                 extractViews := Ok (VNum (Fin 0));
                 extractDescription := Ok VNull |} in
  exists (r : val) (h' : heap),
    extractAllData Sample.env (Resolved true (Some Sample.document))
      (Resolved true (Some Sample.transcription)) page [] = Ok (r, h')
    /\ Js.get h' r "transcript" = Ok (VStr "Hello world, from the page.")
    /\ Js.get h' r "extractionMethod" = Ok (VStr "api+dom").
Proof.
  intros page.
  destruct (extractFromAPI Sample.env (Resolved true (Some Sample.document))
              (Resolved true (Some Sample.transcription)) [])
    as [r h1] eqn:E.
  assert (Js.truthy r = true) as Hr.
  { vm_compute in E. by injection E as <- _. }
  destruct (extractAllData_asks_page Sample.env _ _ page [] h1 r E Hr)
    as (l & ps & -> & Hl & _ & Hyes & _).
  eexists _, _. split; [by apply Hyes|].
  assert (l < length h1) by (by eapply lookup_lt_Some).
  simpl. rewrite list_lookup_insert_eq by done.
  split.
  - by rewrite lookup_set_prop_ne, lookup_set_prop_eq.
  - by rewrite lookup_set_prop_eq.
Defined.

Lemma lookup_prop_absent (k : string) (ps : list (string * val)) :
  k ∉ ps.*1 -> Js.lookup_prop k ps = None.
Proof.
  intros Hk. destruct (Js.lookup_prop k ps) as [v|] eqn:E; [|done].
  exfalso. apply Hk, lookup_prop_keys. by exists v.
Qed.

Lemma delete_prop_app (k : string) (ps qs : list (string * val)) :
  Js.delete_prop k (ps ++ qs) = Js.delete_prop k ps ++ Js.delete_prop k qs.
Proof. apply List.filter_app. Qed.

(** The loop over the keys of the fallback record leaves the fields
    that are not [null] or [undefined], in their order. *)
Lemma remove_null_filter (h : heap) (rest seen : list (string * val)) :
  NoDup (seen ++ rest).*1 ->
  fold_left (fun h3 key => remove_null (length h) key h3) rest.*1
    (h ++ [Obj (seen ++ rest)])
  = h ++ [Obj (seen ++ List.filter (fun p => negb (nullish p.2)) rest)].
Proof.
  revert seen. induction rest as [|[k v] rest IH]; intros seen Hnd; [done|].
  cbn [fmap list_fmap fold_left fst List.filter snd].
  rewrite fmap_app in Hnd. cbn [fmap list_fmap fst] in Hnd.
  apply NoDup_app in Hnd as (Hseen & Hdisj & Hrest).
  apply NoDup_cons in Hrest as [Hk Hrest].
  assert (k ∉ seen.*1) as Hks.
  { intros Hin. apply (Hdisj k Hin). by left. }
  assert (Js.lookup_prop k (seen ++ (k, v) :: rest) = Some v) as Hlook.
  { rewrite lookup_prop_app, (lookup_prop_absent k seen Hks). simpl.
    by rewrite String.eqb_refl. }
  assert (NoDup (seen ++ rest).*1) as Hnd1.
  { rewrite fmap_app. apply NoDup_app. split_and!; [done| |done].
    intros x Hx Hx'. apply (Hdisj x Hx). by right. }
  assert (NoDup ((seen ++ [(k, v)]) ++ rest).*1) as Hnd2.
  { rewrite <- app_assoc. cbn [app]. rewrite fmap_app.
    apply NoDup_app. split_and!; [done|done|]. by apply NoDup_cons. }
  unfold remove_null at 2. rewrite (props_obj _ _ _ (lookup_alloc h _)), Hlook.
  cbn [default].
  assert (delete_key (length h) k (h ++ [Obj (seen ++ (k, v) :: rest)])
          = h ++ [Obj (seen ++ rest)]) as Hdel.
  { unfold delete_key. rewrite lookup_alloc.
    rewrite insert_app_r_alt, Nat.sub_diag by lia. cbn [insert list_insert].
    do 3 f_equal. rewrite delete_prop_app. cbn [Js.delete_prop List.filter fst].
    rewrite String.eqb_refl. cbn [negb].
    change (List.filter _ rest) with (Js.delete_prop k rest).
    change (List.filter _ seen) with (Js.delete_prop k seen).
    by rewrite !delete_prop_absent by (by apply lookup_prop_absent). }
  destruct v as [| | | | |c]; cbn [nullish negb];
    try (rewrite !(cons_middle _ seen), !app_assoc; by apply IH).
  - rewrite Hdel. by apply IH.
  - rewrite Hdel. by apply IH.
Qed.

(** X13. When the structured source gives nothing, [extractAllData]
    returns the record of the page: the twelve fields in their order,
    without those whose scraper found [null] or [undefined], and with
    [videoUrl], [extractedAt], [pageUrl] and [extractionMethod: "dom"]
    always there.  A field that is 0, as the views of a new video, or
    the empty string stays. *)
Theorem extractAllData_fallback (e : env) (document transcription : fetched)
    (h h1 : heap) (r : val)
    (title transcript chapters createdDate playlist duration views
       description : val) :
  extractFromAPI e document transcription h = (r, h1) ->
  Js.truthy r = false ->
  extractAllData e document transcription
    {| extractTitle := Ok title;
       extractTranscript := Ok transcript;
       extractChapters := Ok chapters;
       extractCreatedDate := Ok createdDate;
       extractPlaylist := Ok playlist;
       extractDuration := Ok duration;
       extractViews := Ok views;
       extractDescription := Ok description |} h
  = Ok (VRef (length h1),
        h1 ++ [Obj (List.filter (fun p => negb (nullish p.2))
                      [("title", title);
                       ("transcript", transcript);
                       ("chapters", chapters);
                       ("createdDate", createdDate);
                       ("playlist", playlist);
                       ("duration", duration);
                       ("views", views);
                       ("videoUrl", VStr (href e));
                       ("description", description);
                       ("extractedAt", VStr (now e));
                       ("pageUrl", VStr (href e));
                       ("extractionMethod", VStr "dom")])]).
Proof.
  intros Hapi Hfalsy. unfold extractAllData. rewrite Hapi, Hfalsy.
  cbn [extractTitle extractTranscript extractChapters extractCreatedDate
         extractPlaylist extractDuration extractViews extractDescription].
  unfold bind, lift, alloc. cbv zeta. f_equal. f_equal.
  match goal with
  | |- _ = _ ++ [Obj (List.filter _ ?fields)] =>
      apply (remove_null_filter h1 fields [])
  end.
  apply (bool_decide_unpack _). vm_compute. exact I.
Qed.

Lemma extractAllData_fallback_witness :
  extractAllData Sample.env Rejected Rejected
    {| extractTitle := Ok (VStr "Demo");
       extractTranscript := Ok VNull;
       extractChapters := Ok VNull;
       extractCreatedDate := Ok VNull;
       extractPlaylist := Ok VNull;
       extractDuration := Ok (VStr "2:05");
       extractViews := Ok (VNum (Fin 0));
       extractDescription := Ok VNull |} []
  = Ok (VRef 0,
        [Obj [("title", VStr "Demo");
              ("duration", VStr "2:05");
              ("views", VNum (Fin 0));
              ("videoUrl", VStr (href Sample.env));
              ("extractedAt", VStr (now Sample.env));
              ("pageUrl", VStr (href Sample.env));
              ("extractionMethod", VStr "dom")]]).
Proof.
  apply (extractAllData_fallback Sample.env Rejected Rejected [] [] VNull);
    reflexivity.
Defined.

End Sources.

(** ** Transcript segments *)

Section Segments.
Import Content.

Variable late : val -> val -> bool.






End Segments.

Section Segmenter.
Import Content.





















End Segmenter.
